(** * midi-interceptor: the routing core, embedded and verified

    The development follows the two modules of the application:
    [own-modules/utils.js] (split table, message transformer, wildcard
    matcher, port set-up, shutdown) and [own-modules/main.js] ([execute]).

    Conventions of the embedding.
    - A JavaScript number is an integer ([Z]): the numbers the program meets
      are MIDI bytes, note numbers, channels and port indices.  Numbers with
      a fractional part are outside the model: the tests of
      [buildSplitTable] let them through when they lie within the bounds,
      so what is said below of the entries of a split table is said of
      configurations whose numbers are integers.  The 32-bit conversion
      performed by the bitwise operators is written out.
    - A value read from the configuration is a [JsValue] (what [JSON.parse]
      can produce, plus [undefined]).
    - The split table is a JavaScript object used as a map from note number
      to channel: a [gmap Z Z] (the property name of an integer is its
      decimal text, one name per integer).
    - A JavaScript string is a [string]; a character is an [ascii], so the
      strings of the model are those of code units below 256.
    - Calls of the monitoring function [$m] are recorded in the order they
      happen, as are the calls to the MIDI ports; an exception or
      [process.exit] ends a computation early.
    - The native MIDI binding is a parameter ([World]): the names of the
      ports it enumerates and whether opening a port raises an error. *)

From stdpp Require Import base gmap list strings.
From Stdlib Require Import ZArith Ascii String Lia Bool.

Local Open Scope string_scope.
Local Open Scope list_scope.
Local Open Scope Z_scope.

(** ** JavaScript values and the few primitive operations the code uses *)

Module Js.

(** A value of the configuration.  An object is given by its own
    properties, each name once. *)
#[warnings="-register-all"]
Inductive JsValue : Type :=
| JUndefined
| JNull
| JBool (b : bool)
| JNum (z : Z)
| JStr (s : string)
| JArr (elems : list JsValue)
| JObj (fields : list (string * JsValue)).

(** An element of a MIDI message array: a number, or [undefined] when the
    array is shorter than the position read. *)
Inductive MidiValue : Type :=
| MUndefined
| MNum (z : Z).

Inductive JsError : Type :=
| TypeError
| SyntaxError
| NativeError.

(** How a piece of code ends: normally, by a thrown exception, or by
    [process.exit(code)]. *)
Inductive Completion (A : Type) : Type :=
| Normal (a : A)
| Throw (e : JsError)
| Exit (code : option Z).

Arguments Normal {A} a.
Arguments Throw {A} e.
Arguments Exit {A} code.

(** Sequencing: the first abrupt completion ends the sequence. *)
Definition bindC {A B : Type} (c : Completion A) (f : A → Completion B)
  : Completion B :=
  match c with
  | Normal a => f a
  | Throw e => Throw e
  | Exit code => Exit code
  end.

#[global] Instance Completion_ret : MRet Completion := @Normal.
#[global] Instance Completion_bind : MBind Completion := λ A B f c, bindC c f.

(** Own property of an object literal, by name. *)
Fixpoint lookupField (fields : list (string * JsValue)) (name : string)
  : option JsValue :=
  match fields with
  | [] => None
  | (k, v) :: rest => if String.eqb k name then Some v else lookupField rest name
  end.

(** [v.name] for the property names the program reads ([type], [midiFrom],
    [midiTo], [midi], [channel]): reading a property of [null] or [undefined]
    throws; primitives and arrays have no such property. *)
Definition getProp (v : JsValue) (name : string) : Completion JsValue :=
  match v with
  | JUndefined | JNull => Throw TypeError
  | JObj fields =>
      Normal (match lookupField fields name with
              | Some x => x
              | None => JUndefined
              end)
  | JBool _ | JNum _ | JStr _ | JArr _ => Normal JUndefined
  end.

(** Whether the conversion of [v] to a string, as a template literal
    performs it, completes.  A value of the configuration is never a
    function, so an object with an own property [toString] has no usable
    conversion ([toString] is not callable and [valueOf] gives the object
    back): a [TypeError] is thrown.  Without such a property the object
    converts through [Object.prototype.toString].  An array converts by
    joining the conversions of its elements. *)
Fixpoint stringable (v : JsValue) : bool :=
  match v with
  | JObj fields =>
      match lookupField fields "toString" with
      | Some _ => false
      | None => true
      end
  | JArr elems => forallb stringable elems
  | JUndefined | JNull | JBool _ | JNum _ | JStr _ => true
  end.

(** [v === "s"] *)
Definition strictEqStr (v : JsValue) (s : string) : bool :=
  match v with
  | JStr s' => String.eqb s' s
  | _ => false
  end.

(** Truthiness, as used by [x || dflt]. *)
Definition truthy (v : JsValue) : bool :=
  match v with
  | JUndefined | JNull => false
  | JBool b => b
  | JNum z => negb (z =? 0)
  | JStr s => negb (String.eqb s EmptyString)
  | JArr _ | JObj _ => true
  end.

(** [ToInt32] on an integer. *)
Definition toInt32 (z : Z) : Z := (z + 2 ^ 31) mod 2 ^ 32 - 2 ^ 31.

(** [a & b] and [a | b] on integers. *)
Definition bitAnd (a b : Z) : Z := toInt32 (Z.land (toInt32 a) (toInt32 b)).
Definition bitOr (a b : Z) : Z := toInt32 (Z.lor (toInt32 a) (toInt32 b)).

End Js.

Import Js.

(** ** The monitoring function [$m] *)

Module Monitoring.

Inductive Severity : Type := debug | info | warn | error.

Inductive NoteKind : Type := NOTE_ON | NOTE_OFF | VALUE.

(** The message templates of the program, each with the values it
    interpolates. *)
Inductive Message : Type :=
| MsgInvalidSplitDefinitions
| MsgSkipInvalidRange (index : nat)
| MsgSkipInvalidValues (index : nat)
| MsgSkipUnknownType (index : nat) (type : JsValue)
| MsgNote (kind : NoteKind) (note : MidiValue)
| MsgReroutedToChannel (channel0 : Z)
| MsgExiting
| MsgClosedEverything
| MsgFoundOutputs (count : nat)
| MsgSearching (name : string)
| MsgOutputPort (selected : bool) (name : string) (port : nat)
| MsgConnected (name : string)
| MsgFatalNotFound (name : string)
| MsgFoundInputs (count : nat)
| MsgListening (name : string)
| MsgSkippedInput (port : nat)
| MsgNotListening.

Record Diag : Type := mkDiag {
  type : Severity;
  message : Message;
  data : option JsValue
}.

End Monitoring.

Import Monitoring.

(** ** The runtime around the core: ports, module variables, effects *)

Module Runtime.

(** What the native MIDI binding reports: the names of the output and of the
    input ports, in enumeration order, and whether opening a given port
    raises an error. *)
Record World : Type := mkWorld {
  outputPorts : list string;
  inputPorts : list string;
  openOutputFails : nat → bool;
  openInputFails : nat → bool
}.

(** Observable actions, in the order they happen.  A port handle is
    identified by the index of the port it opened. *)
Inductive Event : Type :=
| EvDiag (d : Diag)
| EvSetDebugMode
| EvOpenOutput (port : nat)
| EvOpenInput (port : nat)
| EvSubscribe (port : nat)
| EvCloseInput (port : nat)
| EvCloseOutput (port : nat)
| EvSend (message : option (list MidiValue)).

(** The module-level variables of utils.js.  [transformMidi] is either the
    initial empty function ([None]) or the closure of [transformMidiSrc]
    over a split table; [output] is the output handle [cleanup] closes,
    assigned by [setOutput]. *)
Record Vars : Type := mkVars {
  transformMidi : option (gmap Z Z);
  inputInstances : list nat;
  output : option nat;
  cleanupCalled : bool
}.

Definition initialVars : Vars := mkVars None [] None false.

(** A computation reads and writes the module variables, emits events and
    completes normally, by an exception or by [process.exit]. *)
Definition M (A : Type) : Type := Vars → Completion A * Vars * list Event.

Definition ret {A : Type} (a : A) : M A := λ s, (Normal a, s, []).

Definition bind {A B : Type} (m : M A) (f : A → M B) : M B :=
  λ s,
    match m s with
    | (Normal a, s', evs) =>
        match f a s' with
        | (c, s'', evs') => (c, s'', evs ++ evs')
        end
    | (Throw e, s', evs) => (Throw e, s', evs)
    | (Exit code, s', evs) => (Exit code, s', evs)
    end.

#[global] Instance M_ret : MRet M := @ret.
#[global] Instance M_bind : MBind M := λ A B f m, bind m f.

Definition emit (e : Event) : M unit := λ s, (Normal tt, s, [e]).
Definition emitAll (evs : list Event) : M unit := λ s, (Normal tt, s, evs).
Definition throw {A : Type} (e : JsError) : M A := λ s, (Throw e, s, []).
Definition processExit {A : Type} (code : option Z) : M A :=
  λ s, (Exit code, s, []).

(** [$m({type, message, data})] *)
Definition monitor (d : Diag) : M unit := emit (EvDiag d).

(** A pure step that may throw. *)
Definition liftCompletion {A : Type} (c : Completion A) : M A :=
  λ s, (c, s, []).

Definition getVars : M Vars := λ s, (Normal s, s, []).
Definition putVars (s : Vars) : M unit := λ _, (Normal tt, s, []).

End Runtime.

Import Runtime.

(** ** own-modules/utils.js *)

Module Utils.

(** The body of
    [for (let midi = midiFrom; midi <= midiTo; midi++) splitTable[midi] = channel]
    with [fuel] bounding the number of iterations. *)
Fixpoint rangeLoop (fuel : nat) (midi midiTo channel : Z)
  (splitTable : gmap Z Z) : gmap Z Z :=
  match fuel with
  | O => splitTable
  | S fuel' =>
      if midi <=? midiTo
      then rangeLoop fuel' (midi + 1) midiTo channel (<[midi := channel]> splitTable)
      else splitTable
  end.

(** [midi.every(v => typeof v === "number" && v >= 0 && v <= 127)] *)
Definition isMidiNumber (v : JsValue) : bool :=
  match v with
  | JNum z => (0 <=? z) && (z <=? 127)
  | _ => false
  end.

(** [midi.forEach(v => splitTable[v] = channel)], run after [every]
    succeeded, so every element is a number. *)
Fixpoint enumLoop (midi : list JsValue) (channel : Z)
  (splitTable : gmap Z Z) : gmap Z Z :=
  match midi with
  | [] => splitTable
  | JNum z :: rest => enumLoop rest channel (<[z := channel]> splitTable)
  | _ :: rest => enumLoop rest channel splitTable
  end.

(** The callback of [splitDefinitions.forEach]: one definition, at [index],
    applied to the table built so far.  It yields the table and the
    diagnostics it emitted, or throws.  In the last branch the message is
    a template literal that interpolates [definition.type]: the conversion
    of that value to a string comes before the call of [$m] and may throw
    (see [stringable]); [MsgSkipUnknownType] carries the value whose
    conversion the message shows. *)
Definition applyDefinition (definition : JsValue) (index : nat)
  (splitTable : gmap Z Z) : Completion (gmap Z Z * list Diag) :=
  ty ← getProp definition "type";
  if strictEqStr ty "range" then
    midiFrom ← getProp definition "midiFrom";
    midiTo ← getProp definition "midiTo";
    channel ← getProp definition "channel";
    match midiFrom, midiTo, channel with
    | JNum midiFrom, JNum midiTo, JNum channel =>
        if (0 <=? midiFrom) && (midiFrom <=? 127) &&
           (0 <=? midiTo) && (midiTo <=? 127) &&
           (1 <=? channel) && (channel <=? 16) &&
           (midiFrom <=? midiTo)
        then Normal (rangeLoop (Z.to_nat (midiTo + 1 - midiFrom))
                       midiFrom midiTo channel splitTable, [])
        else Normal (splitTable,
                     [mkDiag warn (MsgSkipInvalidRange index) (Some definition)])
    | _, _, _ =>
        Normal (splitTable,
                [mkDiag warn (MsgSkipInvalidRange index) (Some definition)])
    end
  else if strictEqStr ty "enumeration" then
    midi ← getProp definition "midi";
    channel ← getProp definition "channel";
    match midi, channel with
    | JArr midi, JNum channel =>
        if forallb isMidiNumber midi && (1 <=? channel) && (channel <=? 16)
        then Normal (enumLoop midi channel splitTable, [])
        else Normal (splitTable,
                     [mkDiag warn (MsgSkipInvalidValues index) (Some definition)])
    | _, _ =>
        Normal (splitTable,
                [mkDiag warn (MsgSkipInvalidValues index) (Some definition)])
    end
  else if stringable ty then
    Normal (splitTable,
            [mkDiag warn (MsgSkipUnknownType index ty) (Some definition)])
  else Throw TypeError.

(** [splitDefinitions.forEach((definition, index) => ...)], from [index]
    on; [log] holds the diagnostics emitted so far.  An exception thrown by
    the callback ends the iteration; the diagnostics already emitted stay
    emitted. *)
Fixpoint forEachDefinition (definitions : list JsValue) (index : nat)
  (splitTable : gmap Z Z) (log : list Diag)
  : Completion (gmap Z Z) * list Diag :=
  match definitions with
  | [] => (Normal splitTable, log)
  | definition :: rest =>
      match applyDefinition definition index splitTable with
      | Normal (splitTable', ds) =>
          forEachDefinition rest (S index) splitTable' (log ++ ds)
      | Throw e => (Throw e, log)
      | Exit c => (Exit c, log)
      end
  end.

(** [buildSplitTable(splitDefinitions)]: the completion and the diagnostics
    emitted through [$m]. *)
Definition buildSplitTable (splitDefinitions : JsValue)
  : Completion (gmap Z Z) * list Diag :=
  match splitDefinitions with
  | JArr ((_ :: _) as definitions) => forEachDefinition definitions 0 ∅ []
  | _ => (Normal ∅, [mkDiag warn MsgInvalidSplitDefinitions None])
  end.

(** Relational operators on a message element: a comparison with
    [undefined] is false. *)
Definition geNum (v : MidiValue) (k : Z) : bool :=
  match v with MNum z => k <=? z | MUndefined => false end.
Definition leNum (v : MidiValue) (k : Z) : bool :=
  match v with MNum z => z <=? k | MUndefined => false end.
Definition strictEqNum (v : MidiValue) (k : Z) : bool :=
  match v with MNum z => z =? k | MUndefined => false end.

(** The numeric value of an operand of a bitwise operator ([undefined]
    converts to 0). *)
Definition numOf (v : MidiValue) : Z :=
  match v with MNum z => z | MUndefined => 0 end.

(** [splitTable.hasOwnProperty(note)] followed by [splitTable[note]]: the
    table has note numbers as keys, so [undefined] is never a key. *)
Definition ownChannel (splitTable : gmap Z Z) (note : MidiValue) : option Z :=
  match note with
  | MNum n => splitTable !! n
  | MUndefined => None
  end.

(** [transformMidiSrc(splitTable, deltaTime, message)]: the returned array
    and the diagnostics emitted. *)
Definition transformMidiSrc {T : Type} (splitTable : gmap Z Z) (deltaTime : T)
  (message : list MidiValue) : list MidiValue * list Diag :=
  let status := nth 0 message MUndefined in
  let note := nth 1 message MUndefined in
  let velocity := nth 2 message MUndefined in
  let isGenuineNoteOff := geNum status 128 && leNum status 143 in
  let isNoteOn := geNum status 144 && leNum status 159 in
  let isFakeNoteOff := isNoteOn && strictEqNum velocity 0 in
  let mustSplitByChannel := isNoteOn || isFakeNoteOff || isGenuineNoteOff in
  let kind := if isNoteOn then NOTE_ON
              else if isGenuineNoteOff || isFakeNoteOff then NOTE_OFF
              else VALUE in
  let d := mkDiag debug (MsgNote kind note) None in
  match (if mustSplitByChannel then ownChannel splitTable note else None) with
  | Some channel =>
      let newStatus := bitOr (bitAnd (numOf status) 240) (channel - 1) in
      ([MNum newStatus; note; velocity],
       [d; mkDiag debug (MsgReroutedToChannel (channel - 1)) None])
  | None => (message, [d])
  end.

(** *** Regular expressions, as far as [wildcardToRegex] builds them

    [new RegExp(source)] is modelled for the fragment of the pattern
    language made of literal characters, escaped syntax characters, [.],
    the anchors [^] and [$] and the quantifier [*] (greedy, on the atom
    before it).  Outside this fragment [parseRegExp] has no result; the
    fragment contains every source text [wildcardToRegex] can build
    (lemma [wildcardToRegex_compiles] below). *)

Inductive Atom : Type :=
| AnyChar
| Lit (c : ascii).

Inductive Term : Type :=
| TAtom (a : Atom)
| TStar (a : Atom)
| BOL
| EOL.

Inductive Token : Type :=
| KAtom (a : Atom)
| KStar
| KBol
| KEol.

(** The class [[.+^${}()|[\]\\]] of the first [replace]. *)
Definition isSpecial (c : ascii) : bool :=
  existsb (Ascii.eqb c)
    ["."; "+"; "^"; "$"; "{"; "}"; "("; ")"; "|"; "["; "]"; "\"]%char.

(** The syntax characters of the pattern language. *)
Definition isSyntaxChar (c : ascii) : bool :=
  existsb (Ascii.eqb c)
    ["^"; "$"; "\"; "."; "*"; "+"; "?"; "("; ")"; "["; "]"; "{"; "}"; "|"]%char.

Fixpoint lexRegExp (source : string) : option (list Token) :=
  match source with
  | EmptyString => Some []
  | String c rest =>
      if Ascii.eqb c "\" then
        match rest with
        | String e rest' =>
            if isSyntaxChar e
            then cons (KAtom (Lit e)) <$> lexRegExp rest'
            else None
        | EmptyString => None
        end
      else if Ascii.eqb c "." then cons (KAtom AnyChar) <$> lexRegExp rest
      else if Ascii.eqb c "^" then cons KBol <$> lexRegExp rest
      else if Ascii.eqb c "$" then cons KEol <$> lexRegExp rest
      else if Ascii.eqb c "*" then cons KStar <$> lexRegExp rest
      else if isSyntaxChar c then None
      else cons (KAtom (Lit c)) <$> lexRegExp rest
  end.

(** A [*] binds to the atom before it; a [*] with nothing to repeat is a
    syntax error. *)
Fixpoint groupTokens (tokens : list Token) : option (list Term) :=
  match tokens with
  | [] => Some []
  | KAtom a :: rest =>
      match rest with
      | KStar :: rest' => cons (TStar a) <$> groupTokens rest'
      | _ => cons (TAtom a) <$> groupTokens rest
      end
  | KStar :: _ => None
  | KBol :: rest => cons BOL <$> groupTokens rest
  | KEol :: rest => cons EOL <$> groupTokens rest
  end.

Definition parseRegExp (source : string) : option (list Term) :=
  lexRegExp source ≫= groupTokens.

(** Line terminators: [.] matches any character but these. *)
Definition isLineTerminator (c : ascii) : bool :=
  Ascii.eqb c "010" || Ascii.eqb c "013".

Definition matchAtom (a : Atom) (c : ascii) : bool :=
  match a with
  | AnyChar => negb (isLineTerminator c)
  | Lit c' => Ascii.eqb c' c
  end.

(** Backtracking match of [terms] at the current position of the input;
    [atStart] tells whether that position is the start of the input, and
    [input] is what is left from the position on. *)
Fixpoint matchTerms (terms : list Term) (atStart : bool) (input : string)
  : bool :=
  match terms with
  | [] => true
  | BOL :: terms' => atStart && matchTerms terms' atStart input
  | EOL :: terms' =>
      match input with
      | EmptyString => matchTerms terms' atStart input
      | String _ _ => false
      end
  | TAtom a :: terms' =>
      match input with
      | String c input' => matchAtom a c && matchTerms terms' false input'
      | EmptyString => false
      end
  | TStar a :: terms' =>
      (fix star (atStart : bool) (input : string) {struct input} : bool :=
         match input with
         | String c input' =>
             (matchAtom a c && star false input') ||
             matchTerms terms' atStart input
         | EmptyString => matchTerms terms' atStart input
         end) atStart input
  end.

(** [regex.test(input)] for a regular expression without flags: a match
    may start at any position. *)
Fixpoint searchFrom (terms : list Term) (atStart : bool) (input : string)
  : bool :=
  matchTerms terms atStart input ||
  match input with
  | String _ input' => searchFrom terms false input'
  | EmptyString => false
  end.

Definition test (regex : list Term) (input : string) : bool :=
  searchFrom regex true input.

(** [.replace(/[.+^${}()|[\]\\]/g, "\\$&")] *)
Fixpoint escapeSpecial (s : string) : string :=
  match s with
  | EmptyString => EmptyString
  | String c rest =>
      if isSpecial c
      then String "\" (String c (escapeSpecial rest))
      else String c (escapeSpecial rest)
  end.

(** [.replace(/\?/g, ".")] *)
Fixpoint replaceQuestion (s : string) : string :=
  match s with
  | EmptyString => EmptyString
  | String c rest =>
      if Ascii.eqb c "?"
      then String "." (replaceQuestion rest)
      else String c (replaceQuestion rest)
  end.

(** [.replace(/\*/g, ".*")] *)
Fixpoint replaceStar (s : string) : string :=
  match s with
  | EmptyString => EmptyString
  | String c rest =>
      if Ascii.eqb c "*"
      then String "." (String "*" (replaceStar rest))
      else String c (replaceStar rest)
  end.

(** The text handed to [new RegExp]. *)
Definition regexSource (pattern : string) : string :=
  let escapedPattern := replaceStar (replaceQuestion (escapeSpecial pattern)) in
  "^" +:+ escapedPattern +:+ "$".

(** [wildcardToRegex(pattern)]: [new RegExp] throws a [SyntaxError] on a
    text it cannot compile. *)
Definition wildcardToRegex (pattern : string) : Completion (list Term) :=
  match parseRegExp (regexSource pattern) with
  | Some regex => Normal regex
  | None => Throw SyntaxError
  end.

(** [exclusions.some(pattern => wildcardToRegex(pattern).test(portName))] *)
Fixpoint isExcluded (portName : string) (exclusions : list string)
  : Completion bool :=
  match exclusions with
  | [] => Normal false
  | pattern :: rest =>
      regex ← wildcardToRegex pattern;
      if test regex portName then Normal true else isExcluded portName rest
  end.

(** [setMidiTransformer(fnTransformer)], with the closure
    [makeClosure(transformMidiSrc, splitTable)] given by its table. *)
Definition setMidiTransformer (splitTable : gmap Z Z) : M unit :=
  s ← getVars;
  putVars (mkVars (Some splitTable) (inputInstances s) (output s) (cleanupCalled s)).

(** [setInputs(inputsList)] *)
Definition setInputs (inputsList : list nat) : M unit :=
  s ← getVars;
  putVars (mkVars (transformMidi s) inputsList (output s) (cleanupCalled s)).

(** Modelled from the spec: [setOutput] and the module variable [output] it
    assigns are missing from the revision of utils.js at hand; main.js
    imports [setOutput] and calls it with the opened output, and [cleanup]
    closes [output] ("current output handle" among the module-level state). *)
Definition setOutput (out : nat) : M unit :=
  s ← getVars;
  putVars (mkVars (transformMidi s) (inputInstances s) (Some out) (cleanupCalled s)).

Definition setCleanupCalled (b : bool) : M unit :=
  s ← getVars;
  putVars (mkVars (transformMidi s) (inputInstances s) (output s) b).

(** [input.getPortName(portIndex)] *)
Definition getInputPortName (w : World) (portIndex : nat) : string :=
  nth portIndex (inputPorts w) EmptyString.

(** [setupMidiInput(portIndex, output, ...exclusions)]: the input handle, or
    [None] for [null]. *)
Definition setupMidiInput (w : World) (portIndex : nat) (out : nat)
  (exclusions : list string) : M (option nat) :=
  let portName := getInputPortName w portIndex in
  excluded ← liftCompletion (isExcluded portName exclusions);
  if excluded : bool then mret None
  else
    _ ← (if openInputFails w portIndex then throw NativeError
         else emit (EvOpenInput portIndex));
    _ ← emit (EvSubscribe portIndex);
    mret (Some portIndex).

(** [handleMessage(input, output, portIndex, deltaTime, message)]: what is
    handed to [output.sendMessage] is the result of [transformMidi], which
    is [undefined] ([None]) as long as no transformer is set. *)
Definition handleMessage {T : Type} (deltaTime : T) (message : list MidiValue)
  : M unit :=
  s ← getVars;
  match transformMidi s with
  | Some splitTable =>
      let '(result, diags) := transformMidiSrc splitTable deltaTime message in
      _ ← emitAll (EvDiag <$> diags);
      emit (EvSend (Some result))
  | None => emit (EvSend None)
  end.

(** [cleanup(inputData, utils, monitoringFn)].  [output.closePort()] needs
    an output to have been set; without one the call raises an error and
    the rest of [cleanup] is not run. *)
Definition cleanup : M unit :=
  s ← getVars;
  if cleanupCalled s then mret tt
  else
    _ ← setCleanupCalled true;
    _ ← monitor (mkDiag info MsgExiting None);
    _ ← emitAll (EvCloseInput <$> inputInstances s);
    _ ← match output s with
        | Some out => emit (EvCloseOutput out)
        | None => throw TypeError
        end;
    _ ← monitor (mkDiag debug MsgClosedEverything None);
    processExit None.

End Utils.

Import Utils.

(** ** own-modules/main.js *)

Module Main.

(** The settings [execute] reads from [inputData], for a configuration
    that follows the schema [index.js] declares: the name of the virtual
    output is a string and the exclusions list, when there is one, is an
    array of strings.  The split table is taken as it comes.  An exclusion
    that is not a string, on which [wildcardToRegex] raises a [TypeError],
    is outside the model. *)
Record InputData : Type := mkInputData {
  virtualOutputName : string;
  splitTable : JsValue;
  exclusionsList : option (list string);
  debugFlag : bool
}.

(** The loop that looks for the virtual output among the output ports;
    [i] is the index of the head of [names]. *)
Fixpoint searchOutput (names : list string) (i : nat) (vOutPortName : string)
  (vOutPortIndex : option nat) : M (option nat) :=
  match names with
  | [] => mret vOutPortIndex
  | outPortName :: rest =>
      let vOutPortIndex' :=
        if String.eqb outPortName vOutPortName then Some i else vOutPortIndex in
      let selected :=
        match vOutPortIndex' with Some j => Nat.eqb j i | None => false end in
      _ ← monitor (mkDiag debug (MsgOutputPort selected outPortName i) None);
      searchOutput rest (S i) vOutPortName vOutPortIndex'
  end.

(** The loop over the input ports, with [remaining] ports left from index
    [i] on; [instances] is the local array [inputInstances]. *)
Fixpoint attachInputs (w : World) (remaining : nat) (i : nat) (out : nat)
  (exclusions : list string) (instances : list nat) : M (list nat) :=
  match remaining with
  | O => mret instances
  | S remaining' =>
      inputInstance ← setupMidiInput w i out exclusions;
      match inputInstance with
      | Some input =>
          _ ← monitor (mkDiag info (MsgListening (getInputPortName w i)) None);
          attachInputs w remaining' (S i) out exclusions (instances ++ [input])
      | None =>
          _ ← monitor (mkDiag debug (MsgSkippedInput i) None);
          attachInputs w remaining' (S i) out exclusions instances
      end
  end.

(** [inputData.splitTable || []] *)
Definition splitDefinitionsOf (inputData : InputData) : JsValue :=
  if truthy (splitTable inputData) then splitTable inputData else JArr [].

(** [inputData.exclusionsList || []] *)
Definition exclusionsOf (inputData : InputData) : list string :=
  default [] (exclusionsList inputData).

(** [execute(inputData, utils, monitoringFn)] *)
Definition execute (w : World) (inputData : InputData) : M Z :=
  let vOutPortName := virtualOutputName inputData in
  let splitDefinitions := splitDefinitionsOf inputData in
  let inputPortsExclusions := exclusionsOf inputData in
  _ ← (if debugFlag inputData then emit EvSetDebugMode else mret tt);
  let '(built, diags) := buildSplitTable splitDefinitions in
  _ ← emitAll (EvDiag <$> diags);
  table ← liftCompletion built;
  _ ← setMidiTransformer table;
  let outPortCount := List.length (outputPorts w) in
  _ ← monitor (mkDiag debug (MsgFoundOutputs outPortCount) None);
  _ ← monitor (mkDiag debug (MsgSearching vOutPortName) None);
  vOutPortIndex ← searchOutput (outputPorts w) 0 vOutPortName None;
  out ← match vOutPortIndex with
        | Some idx =>
            _ ← (if openOutputFails w idx then throw NativeError
                 else emit (EvOpenOutput idx));
            _ ← setOutput idx;
            _ ← monitor (mkDiag info (MsgConnected vOutPortName) None);
            mret idx
        | None =>
            _ ← monitor (mkDiag error (MsgFatalNotFound vOutPortName) None);
            processExit (Some 2)
        end;
  let inPortCount := List.length (inputPorts w) in
  _ ← monitor (mkDiag debug (MsgFoundInputs inPortCount) None);
  inputInstances ← attachInputs w inPortCount 0 out
                     (vOutPortName :: inputPortsExclusions) [];
  match inputInstances with
  | [] =>
      _ ← monitor (mkDiag warn MsgNotListening None);
      mret 1
  | _ :: _ =>
      _ ← setInputs inputInstances;
      mret 3
  end.

End Main.

Import Main.

(** ** index.js: what follows the run of [execute] *)

Module Index.

(** [if ([0, 1, 2].includes(exitValue)) process.exit(exitValue)], with
    [exitValue] the value [wrapAndRun] resolves to: the value returned by
    [execute]. *)
Definition afterRun (exitValue : Z) : M unit :=
  if existsb (Z.eqb exitValue) [0; 1; 2]
  then processExit (Some exitValue)
  else mret tt.

End Index.

(** ** The first revision of the application: a fixed split *)

Module Legacy.

(** [transformMidi(deltaTime, message)] of the first revision, which splits
    the notes among the first four channels by pitch. *)
Definition transformMidi {T : Type} (deltaTime : T) (message : list MidiValue)
  : list MidiValue :=
  let status := nth 0 message MUndefined in
  let note := nth 1 message MUndefined in
  let velocity := nth 2 message MUndefined in
  let isGenuineNoteOff := geNum status 128 && leNum status 143 in
  let isNoteOn := geNum status 144 && leNum status 159 in
  let isFakeNoteOff := isNoteOn && strictEqNum velocity 0 in
  let mustSplitByChannel := isNoteOn || isFakeNoteOff || isGenuineNoteOff in
  if mustSplitByChannel then
    let channel :=
      if geNum note 60 then 1
      else if geNum note 48 then 2
      else if geNum note 36 then 3
      else 4 in
    let newStatus := bitOr (bitAnd (numOf status) 240) (channel - 1) in
    [MNum newStatus; note; velocity]
  else message.

End Legacy.

(** ** The words of the specification, for comparison with the code *)

Module Spec.

(** The split definitions of the data model. *)
Inductive SplitDefinition : Type :=
| Range (midiFrom midiTo channel : Z)
| Enumeration (midi : list Z) (channel : Z).

Definition channelOf (d : SplitDefinition) : Z :=
  match d with
  | Range _ _ c => c
  | Enumeration _ c => c
  end.

Definition valid (d : SplitDefinition) : Prop :=
  match d with
  | Range a b c => 0 <= a /\ a <= b /\ b <= 127 /\ 1 <= c <= 16
  | Enumeration ns c => Forall (λ n, 0 <= n <= 127) ns /\ 1 <= c <= 16
  end.

Definition covers (d : SplitDefinition) (n : Z) : Prop :=
  match d with
  | Range a b _ => a <= n <= b
  | Enumeration ns _ => n ∈ ns
  end.

Definition coversb (d : SplitDefinition) (n : Z) : bool :=
  match d with
  | Range a b _ => (a <=? n) && (n <=? b)
  | Enumeration ns _ => bool_decide (n ∈ ns)
  end.

(** Last writer wins: the channel of the last definition of the list that
    covers [n], or [before] when none does. *)
Fixpoint lastWriter (ds : list SplitDefinition) (n : Z) (before : option Z)
  : option Z :=
  match ds with
  | [] => before
  | d :: rest =>
      lastWriter rest n (if coversb d n then Some (channelOf d) else before)
  end.

(** The configuration entry [v] is the definition [d]: an object with the
    tag and the fields of [d] (in any order, possibly among other
    fields). *)
Definition denotes (v : JsValue) (d : SplitDefinition) : Prop :=
  match d with
  | Range a b c =>
      getProp v "type" = Normal (JStr "range") /\
      getProp v "midiFrom" = Normal (JNum a) /\
      getProp v "midiTo" = Normal (JNum b) /\
      getProp v "channel" = Normal (JNum c)
  | Enumeration ns c =>
      getProp v "type" = Normal (JStr "enumeration") /\
      getProp v "midi" = Normal (JArr (JNum <$> ns)) /\
      getProp v "channel" = Normal (JNum c)
  end.

(** The object a configuration file would hold for [d]. *)
Definition encode (d : SplitDefinition) : JsValue :=
  match d with
  | Range a b c =>
      JObj [("type", JStr "range"); ("midiFrom", JNum a);
            ("midiTo", JNum b); ("channel", JNum c)]
  | Enumeration ns c =>
      JObj [("type", JStr "enumeration"); ("midi", JArr (JNum <$> ns));
            ("channel", JNum c)]
  end.

(** The wildcard matcher as the specification words it: the pattern is
    matched against the entire candidate, [?] stands for exactly one
    arbitrary character, [*] for zero or more arbitrary characters, any
    other character for itself. *)
Fixpoint specMatches (pattern candidate : string) : bool :=
  match pattern with
  | EmptyString =>
      match candidate with EmptyString => true | String _ _ => false end
  | String p pattern' =>
      if Ascii.eqb p "?" then
        match candidate with
        | String _ candidate' => specMatches pattern' candidate'
        | EmptyString => false
        end
      else if Ascii.eqb p "*" then
        (fix star (candidate : string) : bool :=
           specMatches pattern' candidate ||
           match candidate with
           | String _ candidate' => star candidate'
           | EmptyString => false
           end) candidate
      else
        match candidate with
        | String c candidate' => Ascii.eqb p c && specMatches pattern' candidate'
        | EmptyString => false
        end
  end.

(** The classification of a status byte. *)
Definition isNoteOn (status : Z) : Prop := 144 <= status <= 159.
Definition isGenuineNoteOff (status : Z) : Prop := 128 <= status <= 143.
Definition splittable (status : Z) : Prop := 128 <= status <= 159.

End Spec.

Import Spec.

(** ** The wildcard matcher in closed form *)

Module Glob.

(** What the three [replace] calls make of one pattern character. *)
Definition escapeChar (c : ascii) : string :=
  if isSpecial c then String "\" (String c EmptyString)
  else if Ascii.eqb c "?" then "."
  else if Ascii.eqb c "*" then ".*"
  else String c EmptyString.

Fixpoint escaped (pattern : string) : string :=
  match pattern with
  | EmptyString => EmptyString
  | String c rest => escapeChar c +:+ escaped rest
  end.

(** The tokens and the term of one pattern character. *)
Definition tokensOf (c : ascii) : list Token :=
  if Ascii.eqb c "?" then [KAtom AnyChar]
  else if Ascii.eqb c "*" then [KAtom AnyChar; KStar]
  else [KAtom (Lit c)].

Fixpoint tokens (pattern : string) : list Token :=
  match pattern with
  | EmptyString => []
  | String c rest => tokensOf c ++ tokens rest
  end.

Definition termOf (c : ascii) : Term :=
  if Ascii.eqb c "?" then TAtom AnyChar
  else if Ascii.eqb c "*" then TStar AnyChar
  else TAtom (Lit c).

(** The regular expression of a pattern, after the leading [^]. *)
Fixpoint globTerms (pattern : string) : list Term :=
  match pattern with
  | EmptyString => [EOL]
  | String c rest => termOf c :: globTerms rest
  end.

(** What the compiled pattern decides, by recursion on the pattern: as
    [Spec.specMatches], but a character matched by [?] or [*] must not be
    a line terminator. *)
Fixpoint lineMatches (pattern candidate : string) : bool :=
  match pattern with
  | EmptyString =>
      match candidate with EmptyString => true | String _ _ => false end
  | String p pattern' =>
      if Ascii.eqb p "?" then
        match candidate with
        | String c candidate' =>
            negb (isLineTerminator c) && lineMatches pattern' candidate'
        | EmptyString => false
        end
      else if Ascii.eqb p "*" then
        (fix star (candidate : string) : bool :=
           match candidate with
           | String c candidate' =>
               (negb (isLineTerminator c) && star candidate') ||
               lineMatches pattern' candidate
           | EmptyString => lineMatches pattern' candidate
           end) candidate
      else
        match candidate with
        | String c candidate' => Ascii.eqb p c && lineMatches pattern' candidate'
        | EmptyString => false
        end
  end.

(** No character of the string is a line terminator. *)
Fixpoint singleLine (s : string) : bool :=
  match s with
  | EmptyString => true
  | String c rest => negb (isLineTerminator c) && singleLine rest
  end.

(** [matches(pattern, candidate)] of the matcher's contract, as the code
    computes it: [wildcardToRegex(pattern).test(candidate)]. *)
Definition wildcardMatches (pattern candidate : string) : Completion bool :=
  regex ← wildcardToRegex pattern;
  Normal (test regex candidate).

(** [shouldAttach(portName, virtualOutputName, exclusionPatterns)] of the
    admission policy, as the code decides it: [execute] calls
    [setupMidiInput] with the virtual output name ahead of the exclusion
    patterns, and [setupMidiInput] attaches unless [isExcluded]. *)
Definition shouldAttach (portName virtualOutputName : string)
  (exclusionPatterns : list string) : Completion bool :=
  excluded ← isExcluded portName (virtualOutputName :: exclusionPatterns);
  Normal (negb excluded).

End Glob.

Import Glob.

(** ** Invariants and side conditions used by the proofs *)

(** Every channel written to a table is one of the sixteen MIDI channels. *)
Definition channelsInRange (t : gmap Z Z) : Prop :=
  ∀ n c, t !! n = Some c → 1 <= c <= 16.

(** Entries other than [null] and [undefined]: the only ones
    [applyDefinition] can read a property of. *)
Definition nonNullish (v : JsValue) : Prop := v ≠ JNull ∧ v ≠ JUndefined.

(** The value of the property [type] of an entry ([undefined] for an entry
    without one). *)
Definition typeOf (v : JsValue) : JsValue :=
  match getProp v "type" with
  | Normal ty => ty
  | _ => JUndefined
  end.

(** The [type] of the entry is neither of the two tags and has no
    conversion to a string: the message of the unknown-type branch cannot
    be built. *)
Definition unprintableType (v : JsValue) : bool :=
  negb (strictEqStr (typeOf v) "range") &&
  negb (strictEqStr (typeOf v) "enumeration") &&
  negb (stringable (typeOf v)).

(** The entries the callback of [buildSplitTable] completes on. *)
Definition tolerated (v : JsValue) : Prop :=
  nonNullish v ∧ unprintableType v = false.

(** Events that touch no port at all. *)
Definition isSilent (e : Event) : bool :=
  match e with
  | EvDiag _ | EvSetDebugMode => true
  | _ => false
  end.

(** The events of attaching inputs: diagnostics, and for each port opened
    its subscription; a port is opened only if its name matches none of the
    [exclusions]. *)
Definition attachEvent (w : World) (exclusions : list string) (e : Event)
  : Prop :=
  match e with
  | EvDiag _ | EvSubscribe _ => True
  | EvOpenInput i =>
      existsb (λ pattern, lineMatches pattern (getInputPortName w i)) exclusions
      = false
  | _ => False
  end.

(** The input ports a trace opens, in order. *)
Definition openedInputs (evs : list Event) : list nat :=
  omap (λ e, match e with EvOpenInput i => Some i | _ => None end) evs.

(** A configuration and two machines to run the engine on, one with and
    one without the virtual output. *)
Definition exampleData : InputData :=
  mkInputData "X" (JArr [encode (Range 60 63 3)]) (Some ["Controller*"]) false.

Definition exampleWorld : World :=
  mkWorld ["Microsoft GS Wavetable Synth"; "X"]
          ["Controller A"; "Keyboard"; "X"] (λ _, false) (λ _, false).

Definition worldWithoutOutput : World :=
  mkWorld ["Microsoft GS Wavetable Synth"]
          ["Controller A"; "Keyboard"] (λ _, false) (λ _, false).

(** The order of events of a set-up: nothing touches a port before the
    output is opened, and what follows the opening of the output is the
    attaching of inputs. *)
Fixpoint orderly (w : World) (exclusions : list string) (evs : list Event)
  : Prop :=
  match evs with
  | [] => True
  | EvOpenOutput _ :: rest => Forall (attachEvent w exclusions) rest
  | e :: rest => isSilent e = true ∧ orderly w exclusions rest
  end.

(** The last port of [names] called [vOutPortName], counting from [i], or
    [found] when there is none: what the search loop of [execute] leaves in
    [vOutPortIndex]. *)
Fixpoint lastMatch (names : list string) (i : nat) (vOutPortName : string)
  (found : option nat) : option nat :=
  match names with
  | [] => found
  | name :: rest =>
      lastMatch rest (S i) vOutPortName
        (if String.eqb name vOutPortName then Some i else found)
  end.

(** ** Side conditions of the further properties *)

(** The split definitions that reproduce the fixed split of the first
    revision. *)
Definition fourBands : list SplitDefinition :=
  [Range 60 127 1; Range 48 59 2; Range 36 47 3; Range 0 35 4].

(** A pattern without wildcard. *)
Fixpoint literal (pattern : string) : bool :=
  match pattern with
  | EmptyString => true
  | String c rest =>
      negb (Ascii.eqb c "?") && negb (Ascii.eqb c "*") && literal rest
  end.

(** The input ports a trace subscribes to, in order. *)
Definition subscribedInputs (evs : list Event) : list nat :=
  omap (λ e, match e with EvSubscribe i => Some i | _ => None end) evs.

(** Whether one of the [exclusions] matches the name of input port [i]. *)
Definition excludedPort (w : World) (exclusions : list string) (i : nat)
  : bool :=
  existsb (λ pattern, lineMatches pattern (getInputPortName w i)) exclusions.

(** The input ports of the machine whose name none of the patterns
    [exclusions] matches, in enumeration order. *)
Definition admittedPorts (w : World) (exclusions : list string) : list nat :=
  List.filter (λ i, negb (excludedPort w exclusions i))
    (seq 0 (List.length (inputPorts w))).


(** Two more machines: one with two output ports of the configured name,
    one where the second input port cannot be opened. *)
Definition worldWithTwoOutputs : World :=
  mkWorld ["X"; "Microsoft GS Wavetable Synth"; "X"]
          ["Controller A"; "Keyboard"; "X"] (λ _, false) (λ _, false).

Definition worldWithFailingInput : World :=
  mkWorld ["X"] ["Keyboard"; "Piano"; "Organ"] (λ _, false) (λ i, Nat.eqb i 1).

(** Events by which [execute] touches a port. *)
Definition isSetUpEvent (e : Event) : bool :=
  match e with
  | EvCloseInput _ | EvCloseOutput _ | EvSend _ => false
  | _ => true
  end.


(** A table whose keys lie within 0..127 and whose values within 1..16. *)
Definition tableWellFormed (t : gmap Z Z) : Prop :=
  ∀ n c, t !! n = Some c → 0 <= n <= 127 ∧ 1 <= c <= 16.

(** The entry is a valid definition of the data model. *)
Definition wellFormedEntry (v : JsValue) : Prop := ∃ d, denotes v d ∧ valid d.

(** The callback discards the entry: wherever the entry stands and
    whatever the table holds, it emits one warning that carries the entry
    and leaves the table as it was. *)
Definition discards (v : JsValue) : Prop :=
  ∀ index t, ∃ m, applyDefinition v index t = Normal (t, [mkDiag warn m (Some v)]).

(** [Reads vs ds]: reading the entries [vs] in order, keeping the valid
    definitions and skipping the entries the callback discards, gives the
    definitions [ds]. *)
Inductive Reads : list JsValue → list SplitDefinition → Prop :=
| Reads_nil : Reads [] []
| Reads_keep v d vs ds :
    denotes v d → valid d → Reads vs ds → Reads (v :: vs) (d :: ds)
| Reads_skip v vs ds :
    discards v → Reads vs ds → Reads (v :: vs) ds.

(** Unfold the sequencing of completions in the goal. *)
Ltac stepC := cbv [mbind mret Completion_bind Completion_ret bindC].

(** ** Bitwise arithmetic on status bytes *)

Section Bits.

Lemma toInt32_small z : - 2 ^ 31 <= z < 2 ^ 31 → toInt32 z = z.
Proof.
  intros Hz. unfold toInt32.
  rewrite Z.mod_small; lia.
Qed.

Lemma land_15_240 x : 0 <= x <= 15 → Z.land x 240 = 0.
Proof.
  intros Hx.
  assert (Hm : Z.land x (Z.ones 4) = x).
  { rewrite Z.land_ones by lia. apply Z.mod_small. change (2 ^ 4) with 16. lia. }
  rewrite <- Hm, <- Z.land_assoc. change (Z.land (Z.ones 4) 240) with 0.
  apply Z.land_0_r.
Qed.

Lemma land_240_arith s : Z.land s 240 = s mod 256 - s mod 16.
Proof.
  assert (H8 : Z.land s 255 = s mod 256).
  { change 255 with (Z.ones 8). rewrite Z.land_ones by lia. reflexivity. }
  assert (H4 : Z.land s 15 = s mod 16).
  { change 15 with (Z.ones 4). rewrite Z.land_ones by lia. reflexivity. }
  assert (Hsplit : Z.land s 255 = Z.land s 240 + Z.land s 15).
  { rewrite Z.add_nocarry_lor.
    - rewrite <- Z.land_lor_distr_r. reflexivity.
    - rewrite (Z.land_comm s 15), Z.land_assoc, <- (Z.land_assoc s 240 15).
      change (Z.land 240 15) with 0. rewrite Z.land_0_r. apply Z.land_0_l. }
  lia.
Qed.

Lemma land_240_bounds s : 0 <= Z.land s 240 <= 240.
Proof.
  rewrite land_240_arith.
  pose proof (Z.mod_pos_bound s 256 ltac:(lia)).
  pose proof (Z.mod_pos_bound s 16 ltac:(lia)).
  pose proof (Z.rem_mul_r s 16 16 ltac:(lia) ltac:(lia)) as Hr.
  change (16 * 16) with 256 in Hr.
  pose proof (Z.mod_pos_bound (s / 16) 16 ltac:(lia)).
  lia.
Qed.

Lemma lor_nibbles h x :
  Z.land h 15 = 0 → 0 <= x <= 15 → Z.lor h x = h + x.
Proof.
  intros Hh Hx. symmetry. apply Z.add_nocarry_lor.
  assert (Hm : Z.land 15 x = x).
  { rewrite Z.land_comm. change 15 with (Z.ones 4). rewrite Z.land_ones by lia.
    apply Z.mod_small. change (2 ^ 4) with 16. lia. }
  rewrite <- Hm, Z.land_assoc, Hh. apply Z.land_0_l.
Qed.

Lemma land_240_15 s : Z.land (Z.land s 240) 15 = 0.
Proof.
  rewrite <- Z.land_assoc. change (Z.land 240 15) with 0. apply Z.land_0_r.
Qed.

(** The status computed by [(status & 0xf0) | (channel - 1)] when the channel
    is one of the sixteen MIDI channels: no 32-bit wrap-around happens. *)
Lemma newStatus_plain status channel :
  - 2 ^ 31 <= status < 2 ^ 31 → 1 <= channel <= 16 →
  bitOr (bitAnd status 240) (channel - 1)
  = Z.lor (Z.land status 240) (channel - 1).
Proof.
  intros Hs Hc. unfold bitOr, bitAnd.
  pose proof (land_240_bounds status) as Hb.
  rewrite (toInt32_small status) by lia.
  rewrite (toInt32_small 240) by lia.
  rewrite (toInt32_small (Z.land status 240)) by lia.
  rewrite (toInt32_small (channel - 1)) by lia.
  rewrite (toInt32_small (Z.land status 240)) by lia.
  apply toInt32_small.
  rewrite lor_nibbles by (auto using land_240_15; lia). lia.
Qed.

Lemma newStatus_arith status channel :
  - 2 ^ 31 <= status < 2 ^ 31 → 1 <= channel <= 16 →
  bitOr (bitAnd status 240) (channel - 1)
  = status mod 256 - status mod 16 + (channel - 1).
Proof.
  intros Hs Hc. rewrite newStatus_plain by assumption.
  rewrite lor_nibbles by (auto using land_240_15; lia).
  rewrite land_240_arith. reflexivity.
Qed.

Lemma newStatus_high_nibble status channel :
  - 2 ^ 31 <= status < 2 ^ 31 → 1 <= channel <= 16 →
  Z.land (bitOr (bitAnd status 240) (channel - 1)) 240 = Z.land status 240.
Proof.
  intros Hs Hc. rewrite newStatus_plain by assumption.
  rewrite Z.land_lor_distr_l, <- Z.land_assoc, Z.land_diag.
  rewrite (land_15_240 (channel - 1)) by lia. apply Z.lor_0_r.
Qed.

End Bits.

(** ** The split table compiler *)

Section SplitTable.

Implicit Types (t : gmap Z Z) (n c : Z).

(** Case analysis on a decision that occurs in the goal. *)
Ltac goal_decide :=
  match goal with
  | |- context [decide ?P] => destruct (decide P) as [?Hyes|?Hno]
  end.

(** What the [for] loop of a range writes, given enough fuel for it to run
    until its condition fails. *)
Lemma rangeLoop_lookup fuel midi midiTo c t n :
  midiTo + 1 - midi <= Z.of_nat fuel →
  rangeLoop fuel midi midiTo c t !! n
  = if decide (midi <= n <= midiTo) then Some c else t !! n.
Proof.
  revert midi t. induction fuel as [|fuel IH]; intros midi t Hfuel.
  - simpl. goal_decide; [exfalso; lia | reflexivity].
  - simpl. destruct (Z.leb_spec midi midiTo) as [Hle|Hgt].
    + rewrite IH by lia. clear IH.
      destruct (decide (midi = n)) as [->|Hne].
      * rewrite lookup_insert_eq. repeat goal_decide; (reflexivity || (exfalso; lia)).
      * rewrite lookup_insert_ne by assumption.
        repeat goal_decide; (reflexivity || (exfalso; lia)).
    + goal_decide; [exfalso; lia | reflexivity].
Qed.

(** The fuel given by [applyDefinition] is enough: more fuel changes
    nothing, the loop has stopped on its own condition. *)
Lemma rangeLoop_fuel_exact fuel midi midiTo c t :
  (Z.to_nat (midiTo + 1 - midi) <= fuel)%nat →
  rangeLoop fuel midi midiTo c t
  = rangeLoop (Z.to_nat (midiTo + 1 - midi)) midi midiTo c t.
Proof.
  intros Hfuel. apply map_eq. intros n.
  rewrite !rangeLoop_lookup by lia. reflexivity.
Qed.

Lemma enumLoop_lookup (ns : list Z) c t n :
  enumLoop (JNum <$> ns) c t !! n
  = if decide (n ∈ ns) then Some c else t !! n.
Proof.
  revert t. induction ns as [|m ns IH]; intros t.
  - goal_decide; [set_solver | reflexivity].
  - rewrite fmap_cons. cbn [enumLoop]. rewrite IH. clear IH. destruct (decide (m = n)) as [->|Hne].
    + rewrite lookup_insert_eq.
      repeat goal_decide; try reflexivity; exfalso;
        rewrite elem_of_cons in *; intuition congruence.
    + rewrite lookup_insert_ne by assumption.
      repeat goal_decide; try reflexivity; exfalso;
        rewrite elem_of_cons in *; intuition congruence.
Qed.

Lemma forallb_isMidiNumber (ns : list Z) :
  Forall (λ n, 0 <= n <= 127) ns → forallb isMidiNumber (JNum <$> ns) = true.
Proof.
  induction 1 as [|n ns Hn _ IH]; [reflexivity|].
  rewrite fmap_cons. cbn [forallb isMidiNumber].
  rewrite IH, andb_true_r. apply andb_true_intro. split; apply Z.leb_le; lia.
Qed.

(** A valid definition is applied without diagnostic: it writes its channel
    at every note it covers and leaves the other notes as they were. *)
Lemma applyDefinition_valid v d index t :
  denotes v d → valid d →
  ∃ t', applyDefinition v index t = Normal (t', []) ∧
        ∀ n, (covers d n → t' !! n = Some (channelOf d)) ∧
             (¬ covers d n → t' !! n = t !! n).
Proof.
  destruct d as [a b c|ns c]; simpl.
  - intros (Hty & Hfrom & Hto & Hch) (Ha & Hab & Hb & Hc).
    unfold applyDefinition. stepC. rewrite Hty. simpl.
    rewrite Hfrom, Hto, Hch.
    replace ((0 <=? a) && (a <=? 127) && (0 <=? b) && (b <=? 127) &&
             (1 <=? c) && (c <=? 16) && (a <=? b)) with true.
    2:{ symmetry. repeat (apply andb_true_intro; split); apply Z.leb_le; lia. }
    eexists. split; [reflexivity|].
    intros n. rewrite rangeLoop_lookup by lia.
    split; intros Hn; goal_decide; (reflexivity || tauto).
  - intros (Hty & Hmidi & Hch) (Hns & Hc).
    unfold applyDefinition. stepC. rewrite Hty. simpl.
    rewrite Hmidi, Hch.
    rewrite forallb_isMidiNumber by assumption. simpl.
    replace ((1 <=? c) && (c <=? 16)) with true.
    2:{ symmetry. apply andb_true_intro; split; apply Z.leb_le; lia. }
    eexists. split; [reflexivity|].
    intros n. rewrite enumLoop_lookup.
    split; intros Hn; goal_decide; (reflexivity || tauto).
Qed.

Lemma rangeLoop_channels fuel midi midiTo c t :
  1 <= c <= 16 → channelsInRange t →
  channelsInRange (rangeLoop fuel midi midiTo c t).
Proof.
  intros Hc. revert midi t. induction fuel as [|fuel IH]; intros midi t Ht; simpl.
  - assumption.
  - destruct (midi <=? midiTo); [|assumption].
    apply IH. intros n c' Hn.
    destruct (decide (midi = n)) as [->|Hne].
    + rewrite lookup_insert_eq in Hn. congruence.
    + rewrite lookup_insert_ne in Hn by assumption. eauto.
Qed.

Lemma enumLoop_channels midi c t :
  1 <= c <= 16 → channelsInRange t → channelsInRange (enumLoop midi c t).
Proof.
  intros Hc. revert t. induction midi as [|v midi IH]; intros t Ht; simpl.
  - assumption.
  - destruct v; auto.
    apply IH. intros n c' Hn.
    destruct (decide (z = n)) as [->|Hne].
    + rewrite lookup_insert_eq in Hn. congruence.
    + rewrite lookup_insert_ne in Hn by assumption. eauto.
Qed.

Lemma applyDefinition_channels definition index t t' ds :
  applyDefinition definition index t = Normal (t', ds) →
  channelsInRange t → channelsInRange t'.
Proof.
  unfold applyDefinition. stepC. intros Happ Ht.
  destruct (getProp definition "type") as [ty| |]; try discriminate.
  destruct (strictEqStr ty "range").
  - destruct (getProp definition "midiFrom") as [[]| |];
      destruct (getProp definition "midiTo") as [[]| |];
      destruct (getProp definition "channel") as [[]| |];
      try discriminate Happ;
      try (injection Happ as <- <-; assumption).
    match type of Happ with (if ?b then _ else _) = _ => destruct b eqn:Hb end;
      injection Happ as <- <-; [|assumption].
    apply rangeLoop_channels; [|assumption].
    repeat (apply andb_prop in Hb; destruct Hb as [Hb ?]).
    split; apply Z.leb_le; assumption.
  - destruct (strictEqStr ty "enumeration").
    + destruct (getProp definition "midi") as [[]| |];
        destruct (getProp definition "channel") as [[]| |];
        try discriminate Happ;
        try (injection Happ as <- <-; assumption).
      match type of Happ with (if ?b then _ else _) = _ => destruct b eqn:Hb end;
        injection Happ as <- <-; [|assumption].
      apply enumLoop_channels; [|assumption].
      repeat (apply andb_prop in Hb; destruct Hb as [Hb ?]).
      split; apply Z.leb_le; assumption.
    + destruct (stringable ty); [|discriminate Happ].
      injection Happ as <- <-; assumption.
Qed.

Lemma forEachDefinition_channels definitions index t log t' log' :
  forEachDefinition definitions index t log = (Normal t', log') →
  channelsInRange t → channelsInRange t'.
Proof.
  revert index t log. induction definitions as [|d ds IH]; intros index t log; simpl.
  - intros [= <- <-]. auto.
  - destruct (applyDefinition d index t) as [[t1 ds1]| |] eqn:Happ;
      try discriminate.
    intros Hrest Ht. eapply IH; [exact Hrest|].
    eapply applyDefinition_channels; eassumption.
Qed.

Lemma buildSplitTable_channels splitDefinitions t log :
  buildSplitTable splitDefinitions = (Normal t, log) → channelsInRange t.
Proof.
  assert (Hempty : channelsInRange ∅).
  { intros n c Hn. rewrite lookup_empty in Hn. discriminate. }
  unfold buildSplitTable.
  destruct splitDefinitions as [| | | | |[|d ds]|];
    try (intros [= <- <-]; exact Hempty).
  intros Hrun. eapply forEachDefinition_channels; eassumption.
Qed.

End SplitTable.

Section SplitTableDegradation.

Implicit Types (t : gmap Z Z).

Lemma getProp_nonNullish v name :
  nonNullish v → ∃ x, getProp v name = Normal x.
Proof.
  intros [Hnull Hundef]. destruct v; simpl; eauto; congruence.
Qed.

(** An entry that is neither [null] nor [undefined], and whose [type]
    can be written in a message, is either applied silently or discarded
    with exactly one warning that carries it, the table being left as it
    was. *)
Lemma applyDefinition_tolerated v index t :
  tolerated v →
  ∃ t' ds, applyDefinition v index t = Normal (t', ds) ∧
           (ds = [] ∨ (t' = t ∧ ∃ m, ds = [mkDiag warn m (Some v)])).
Proof.
  intros [Hv Hty]. unfold unprintableType, typeOf in Hty.
  unfold applyDefinition. stepC.
  destruct (getProp_nonNullish v "midiFrom" Hv) as [midiFrom ->].
  destruct (getProp_nonNullish v "midiTo" Hv) as [midiTo ->].
  destruct (getProp_nonNullish v "midi" Hv) as [midi ->].
  destruct (getProp_nonNullish v "channel" Hv) as [channel ->].
  destruct (getProp_nonNullish v "type" Hv) as [ty Hget].
  rewrite Hget in Hty |- *.
  assert (Hskip : ∀ m, ∃ t' ds,
            Normal (t, [mkDiag warn m (Some v)]) = Normal (t', ds) ∧
            (ds = [] ∨ (t' = t ∧ ∃ m', ds = [mkDiag warn m' (Some v)]))).
  { intros m. do 2 eexists. split; [reflexivity|]. right. eauto. }
  assert (Hdone : ∀ t0 : gmap Z Z, ∃ t' ds,
            Normal (t0, @nil Diag) = Normal (t', ds) ∧
            (ds = [] ∨ (t' = t ∧ ∃ m', ds = [mkDiag warn m' (Some v)]))).
  { intros t0. do 2 eexists. split; [reflexivity|]. left. reflexivity. }
  destruct (strictEqStr ty "range"); [|destruct (strictEqStr ty "enumeration")].
  - destruct midiFrom, midiTo, channel; try apply Hskip.
    match goal with |- context [if ?b then _ else _] => destruct b end;
      [apply Hdone | apply Hskip].
  - destruct midi, channel; try apply Hskip.
    match goal with |- context [if ?b then _ else _] => destruct b end;
      [apply Hdone | apply Hskip].
  - destruct (stringable ty); [apply Hskip | discriminate Hty].
Qed.

(** A [null] or [undefined] entry makes the callback throw. *)
Lemma applyDefinition_nullish v index t :
  v = JNull ∨ v = JUndefined → applyDefinition v index t = Throw TypeError.
Proof. intros [-> | ->]; reflexivity. Qed.

(** So does an entry whose [type] cannot be written in the message of the
    unknown-type branch. *)
Lemma applyDefinition_unprintable v index t :
  unprintableType v = true → applyDefinition v index t = Throw TypeError.
Proof.
  unfold unprintableType, typeOf, applyDefinition. stepC.
  destruct (getProp v "type") as [ty|e|c] eqn:Hget.
  - intros [[Hrange Henum]%andb_prop Hstr]%andb_prop.
    apply negb_true_iff in Hrange, Henum, Hstr.
    rewrite Hrange, Henum, Hstr. reflexivity.
  - intros Hty. discriminate Hty.
  - intros Hty. discriminate Hty.
Qed.

(** Every entry is tolerated or makes the callback throw a [TypeError]. *)
Lemma tolerated_or_fatal v :
  tolerated v ∨ (∀ index t, applyDefinition v index t = Throw TypeError).
Proof.
  destruct (unprintableType v) eqn:Hty.
  { right. intros index t. now apply applyDefinition_unprintable. }
  destruct v; try (left; split; [split; discriminate | exact Hty]);
    right; intros index t; reflexivity.
Qed.

Lemma tolerated_not_fatal v index t :
  tolerated v → applyDefinition v index t ≠ Throw TypeError.
Proof.
  intros Hv Hthrow.
  destruct (applyDefinition_tolerated v index t Hv) as (t' & ds & Happ & _).
  rewrite Happ in Hthrow. discriminate Hthrow.
Qed.

Lemma forEachDefinition_tolerated definitions index t log :
  Forall tolerated definitions →
  ∃ t' log', forEachDefinition definitions index t log = (Normal t', log').
Proof.
  intros Hall. revert index t log.
  induction Hall as [|v vs Hv _ IH]; intros index t log; simpl.
  - eauto.
  - destruct (applyDefinition_tolerated v index t Hv) as (t' & ds & -> & _).
    apply IH.
Qed.

(** An input that is not an array, or an empty array, yields the empty table
    and one warning. *)
Lemma buildSplitTable_not_a_list v :
  (∀ d ds, v ≠ JArr (d :: ds)) →
  buildSplitTable v = (Normal ∅, [mkDiag warn MsgInvalidSplitDefinitions None]).
Proof.
  intros Hv. destruct v as [| | | | |[|d ds]|]; try reflexivity.
  exfalso. eapply Hv. reflexivity.
Qed.

(** A list of tolerated entries always yields a table. *)
Lemma buildSplitTable_tolerated definitions :
  Forall tolerated definitions →
  ∃ t log, buildSplitTable (JArr definitions) = (Normal t, log).
Proof.
  intros Hall. destruct definitions as [|d ds].
  - do 2 eexists. reflexivity.
  - apply forEachDefinition_tolerated. assumption.
Qed.

(** The degenerate inputs the specification lists, and the example of the
    function's own documentation. *)
Lemma buildSplitTable_examples :
  buildSplitTable (JArr [])
  = (Normal ∅, [mkDiag warn MsgInvalidSplitDefinitions None]) ∧
  buildSplitTable JUndefined
  = (Normal ∅, [mkDiag warn MsgInvalidSplitDefinitions None]) ∧
  buildSplitTable (JStr "not a list")
  = (Normal ∅, [mkDiag warn MsgInvalidSplitDefinitions None]) ∧
  buildSplitTable (JArr [JStr "not a list"])
  = (Normal ∅,
     [mkDiag warn (MsgSkipUnknownType 0 JUndefined) (Some (JStr "not a list"))]) ∧
  buildSplitTable
    (JArr [encode (Range 60 63 3); encode (Enumeration [64; 65; 66] 4);
           encode (Range 61 62 2)])
  = (Normal (list_to_map [(60, 3); (61, 2); (62, 2); (63, 3);
                          (64, 4); (65, 4); (66, 4)]), []).
Proof. repeat split; vm_compute; reflexivity. Qed.

End SplitTableDegradation.

(** ** The message transformer *)

Section Transformer.

Context {T : Type}.
Implicit Types (table : gmap Z Z) (deltaTime : T).

(** Unfold the classification and decide the comparisons. *)
Ltac classify :=
  unfold transformMidiSrc; cbn [nth geNum leNum strictEqNum numOf ownChannel];
  repeat match goal with
         | |- context [?a <=? ?b] => destruct (Z.leb_spec a b)
         end;
  cbn [andb orb]; try (exfalso; lia).

Lemma transformMidiSrc_passthrough table deltaTime status rest :
  ¬ (128 <= status <= 159) →
  fst (transformMidiSrc table deltaTime (MNum status :: rest))
  = MNum status :: rest.
Proof.
  intros Hs. classify; reflexivity.
Qed.

Lemma transformMidiSrc_short table deltaTime message :
  nth 0 message MUndefined = MUndefined →
  fst (transformMidiSrc table deltaTime message) = message.
Proof.
  intros Hs. unfold transformMidiSrc. rewrite Hs. reflexivity.
Qed.

Lemma transformMidiSrc_unmapped table deltaTime message :
  ownChannel table (nth 1 message MUndefined) = None →
  fst (transformMidiSrc table deltaTime message) = message.
Proof.
  intros Hn. unfold transformMidiSrc. rewrite Hn.
  match goal with |- context [if ?b then _ else _] => destruct b end; reflexivity.
Qed.

Lemma transformMidiSrc_reroute table deltaTime status note rest channel :
  128 <= status <= 159 → table !! note = Some channel →
  fst (transformMidiSrc table deltaTime (MNum status :: MNum note :: rest))
  = [MNum (bitOr (bitAnd status 240) (channel - 1)); MNum note;
     nth 0 rest MUndefined].
Proof.
  intros Hs Hn. classify; rewrite ?orb_true_r, Hn; reflexivity.
Qed.

End Transformer.

(** ** The wildcard matcher *)

Section Wildcard.

(** Case analysis on a character: all 256 of them. *)
Ltac each_char c := destruct c as [[] [] [] [] [] [] [] []].

Lemma replace_char c rest :
  replaceStar (replaceQuestion (escapeSpecial (String c rest)))
  = escapeChar c +:+ replaceStar (replaceQuestion (escapeSpecial rest)).
Proof. each_char c; reflexivity. Qed.

Lemma replace_escaped pattern :
  replaceStar (replaceQuestion (escapeSpecial pattern)) = escaped pattern.
Proof.
  induction pattern as [|c rest IH]; [reflexivity|].
  rewrite replace_char, IH. reflexivity.
Qed.

Lemma lex_char c rest :
  lexRegExp (escapeChar c +:+ rest) = (app (tokensOf c)) <$> lexRegExp rest.
Proof.
  each_char c;
    cbv [escapeChar isSpecial existsb Ascii.eqb Bool.eqb orb String.append];
    simpl; destruct (lexRegExp rest); reflexivity.
Qed.

Lemma string_app_assoc (s1 s2 s3 : string) :
  (s1 +:+ s2) +:+ s3 = s1 +:+ (s2 +:+ s3).
Proof.
  induction s1 as [|c s1 IH]; [reflexivity|].
  change (String c ((s1 +:+ s2) +:+ s3) = String c (s1 +:+ (s2 +:+ s3))).
  rewrite IH. reflexivity.
Qed.

Lemma lex_escaped pattern :
  lexRegExp (escaped pattern +:+ "$") = Some (tokens pattern ++ [KEol]).
Proof.
  induction pattern as [|c rest IH]; [reflexivity|].
  cbn [escaped tokens].
  rewrite string_app_assoc, lex_char, IH.
  cbn [fmap option_fmap option_map]. rewrite app_assoc. reflexivity.
Qed.

(** The tokens of a pattern never start with a [*] left without an atom. *)
Lemma tokens_head pattern tail :
  ∃ k rest, tokens pattern ++ KEol :: tail = k :: rest ∧ k ≠ KStar.
Proof.
  destruct pattern as [|c pattern']; cbn [tokens].
  - do 2 eexists. split; [reflexivity | discriminate].
  - unfold tokensOf.
    destruct (Ascii.eqb c "?"); [|destruct (Ascii.eqb c "*")];
      do 2 eexists; (split; [reflexivity | discriminate]).
Qed.

Lemma group_atom a k rest :
  k ≠ KStar →
  groupTokens (KAtom a :: k :: rest) = cons (TAtom a) <$> groupTokens (k :: rest).
Proof. intros Hk. destruct k; try reflexivity. congruence. Qed.

Lemma group_tokens pattern :
  groupTokens (tokens pattern ++ [KEol]) = Some (globTerms pattern).
Proof.
  induction pattern as [|c rest IH]; [reflexivity|].
  cbn [tokens globTerms]. unfold tokensOf, termOf.
  destruct (tokens_head rest []) as (k & r & Hkr & Hk).
  destruct (Ascii.eqb c "?"); [|destruct (Ascii.eqb c "*")]; cbn [app].
  - rewrite Hkr, group_atom, <- Hkr, IH by assumption. reflexivity.
  - cbn [groupTokens]. rewrite IH. reflexivity.
  - rewrite Hkr, group_atom, <- Hkr, IH by assumption. reflexivity.
Qed.

(** [new RegExp] compiles the text built for any pattern: [wildcardToRegex]
    never throws, and its result is known. *)
Lemma wildcardToRegex_compiles pattern :
  wildcardToRegex pattern = Normal (BOL :: globTerms pattern).
Proof.
  unfold wildcardToRegex, regexSource, parseRegExp.
  rewrite replace_escaped.
  change (lexRegExp ("^" +:+ escaped pattern +:+ "$"))
    with (cons KBol <$> lexRegExp (escaped pattern +:+ "$")).
  rewrite lex_escaped. cbn [fmap option_fmap option_map mbind option_bind].
  cbn [groupTokens]. rewrite group_tokens. reflexivity.
Qed.

(** A pattern anchored at the start cannot match further on. *)
Lemma searchFrom_anchored terms input :
  searchFrom (BOL :: terms) false input = false.
Proof. induction input as [|c input IH]; simpl; [reflexivity | exact IH]. Qed.

Lemma test_anchored terms input :
  test (BOL :: terms) input = matchTerms terms true input.
Proof.
  unfold test. destruct input as [|c input]; simpl.
  - apply orb_false_r.
  - rewrite searchFrom_anchored. apply orb_false_r.
Qed.

(** The backtracking matcher on the expression of a pattern decides
    [lineMatches]. *)
Lemma matchTerms_glob pattern atStart candidate :
  matchTerms (globTerms pattern) atStart candidate
  = lineMatches pattern candidate.
Proof.
  revert atStart candidate.
  induction pattern as [|p pattern IH]; intros atStart candidate.
  - destruct candidate; reflexivity.
  - cbn [globTerms lineMatches]. unfold termOf.
    destruct (Ascii.eqb p "?"); [|destruct (Ascii.eqb p "*")].
    + destruct candidate as [|c candidate]; [reflexivity|].
      cbn [matchTerms matchAtom]. rewrite IH. reflexivity.
    + cbn [matchTerms].
      revert atStart.
      induction candidate as [|c candidate IHc]; intros atStart.
      * apply IH.
      * cbn [matchAtom]. rewrite IHc, IH. reflexivity.
    + destruct candidate as [|c candidate]; [reflexivity|].
      cbn [matchTerms matchAtom]. rewrite IH. reflexivity.
Qed.

(** The wildcard matcher in closed form. *)
Lemma wildcardMatches_closed pattern candidate :
  wildcardMatches pattern candidate = Normal (lineMatches pattern candidate).
Proof.
  unfold wildcardMatches. rewrite wildcardToRegex_compiles. stepC.
  rewrite test_anchored, matchTerms_glob. reflexivity.
Qed.

(** On a candidate without line terminators the matcher decides what the
    specification says. *)
Lemma lineMatches_singleLine pattern candidate :
  singleLine candidate = true →
  lineMatches pattern candidate = specMatches pattern candidate.
Proof.
  revert candidate.
  induction pattern as [|p pattern IH]; intros candidate Hline.
  - reflexivity.
  - cbn [lineMatches specMatches].
    destruct (Ascii.eqb p "?"); [|destruct (Ascii.eqb p "*")].
    + destruct candidate as [|c candidate]; [reflexivity|].
      cbn [singleLine] in Hline. apply andb_prop in Hline as [Hc Hrest].
      rewrite Hc, IH by assumption. reflexivity.
    + induction candidate as [|c candidate IHc].
      * rewrite IH by reflexivity. apply eq_sym, orb_false_r.
      * pose proof Hline as Hline'.
        cbn [singleLine] in Hline'. apply andb_prop in Hline' as [Hc Hrest].
        rewrite Hc, IHc, IH by assumption. cbn [andb]. apply orb_comm.
    + destruct candidate as [|c candidate]; [reflexivity|].
      cbn [singleLine] in Hline. apply andb_prop in Hline as [Hc Hrest].
      rewrite IH by assumption. reflexivity.
Qed.

(** Every pattern matches itself, whatever it contains. *)
Lemma lineMatches_self pattern : lineMatches pattern pattern = true.
Proof.
  induction pattern as [|p pattern IH]; [reflexivity|].
  cbn [lineMatches].
  destruct (Ascii.eqb_spec p "?") as [->|Hq].
  - rewrite IH. reflexivity.
  - destruct (Ascii.eqb_spec p "*") as [->|Hs].
    + destruct pattern as [|c pattern'].
      * rewrite IH. reflexivity.
      * change (isLineTerminator "*") with false. cbn [negb andb].
        fold (lineMatches (String c pattern') (String c pattern')) in IH.
        destruct (isLineTerminator c); cbn [negb andb orb];
          rewrite ?IH, ?orb_true_r; reflexivity.
    + rewrite Ascii.eqb_refl, IH. reflexivity.
Qed.

Lemma isExcluded_head portName pattern rest :
  lineMatches pattern portName = true →
  isExcluded portName (pattern :: rest) = Normal true.
Proof.
  intros Hm. cbn [isExcluded]. rewrite wildcardToRegex_compiles. stepC.
  rewrite test_anchored, matchTerms_glob, Hm. reflexivity.
Qed.

Lemma isExcluded_closed portName exclusions :
  isExcluded portName exclusions
  = Normal (existsb (λ pattern, lineMatches pattern portName) exclusions).
Proof.
  induction exclusions as [|pattern rest IH]; [reflexivity|].
  cbn [isExcluded existsb]. rewrite wildcardToRegex_compiles. stepC.
  rewrite test_anchored, matchTerms_glob.
  destruct (lineMatches pattern portName); [reflexivity | exact IH].
Qed.

End Wildcard.

(** ** Properties of the message transformer and of the compiler *)

(** C1. For a table of MIDI channels and a channel-splittable message
    (status in [128,159]) whose note has an entry in the table,
    [transformMidiSrc] returns the message whose status is the original
    status with its low nibble cleared, OR-ed with [table[note] - 1], and
    whose note and velocity are those received; with [table[60] = 3] the
    message (144,60,100) becomes (146,60,100). *)
Theorem C1_channel_rewrite :
  (∀ (T : Type) (table : gmap Z Z) (deltaTime : T)
     (status note channel : Z) (velocity : MidiValue),
     splittable status → table !! note = Some channel → 1 <= channel <= 16 →
     fst (transformMidiSrc table deltaTime [MNum status; MNum note; velocity])
     = [MNum (Z.lor (Z.land status 240) (channel - 1)); MNum note; velocity])
  ∧
  (∀ (T : Type) (table : gmap Z Z) (deltaTime : T),
     table !! 60 = Some 3 →
     fst (transformMidiSrc table deltaTime [MNum 144; MNum 60; MNum 100])
     = [MNum 146; MNum 60; MNum 100]).
Proof.
  split.
  - intros T table deltaTime status note channel velocity Hs Hn Hc.
    unfold splittable in Hs.
    rewrite (transformMidiSrc_reroute _ _ _ _ _ _ Hs Hn).
    rewrite newStatus_plain by lia. reflexivity.
  - intros T table deltaTime Hn.
    rewrite (transformMidiSrc_reroute table deltaTime 144 60 [MNum 100] 3)
      by (assumption || lia).
    reflexivity.
Qed.

Lemma C1_channel_rewrite_witness :
  splittable 144 ∧ ({[60 := 3]} : gmap Z Z) !! 60 = Some 3 ∧ 1 <= 3 <= 16 ∧
  fst (transformMidiSrc ({[60 := 3]} : gmap Z Z) tt [MNum 144; MNum 60; MNum 100])
  = [MNum (Z.lor (Z.land 144 240) (3 - 1)); MNum 60; MNum 100] ∧
  fst (transformMidiSrc ({[60 := 3]} : gmap Z Z) tt [MNum 144; MNum 60; MNum 100])
  = [MNum 146; MNum 60; MNum 100].
Proof.
  assert (H1 : splittable 144) by (unfold splittable; lia).
  assert (H2 : ({[60 := 3]} : gmap Z Z) !! 60 = Some 3) by reflexivity.
  assert (H3 : 1 <= 3 <= 16) by lia.
  split; [exact H1|]. split; [exact H2|]. split; [exact H3|]. split.
  - apply (proj1 C1_channel_rewrite unit {[60 := 3]} tt 144 60 3 (MNum 100) H1 H2 H3).
  - apply (proj2 C1_channel_rewrite unit {[60 := 3]} tt H2).
Defined.

(** C7. Pass-through law: a message whose status lies outside [128,159] is
    returned unchanged, whatever the table, the note and the velocity. *)
Theorem C7_pass_through (T : Type) (table : gmap Z Z) (deltaTime : T)
  (status : Z) (rest : list MidiValue) :
  ¬ splittable status →
  fst (transformMidiSrc table deltaTime (MNum status :: rest))
  = MNum status :: rest.
Proof. apply transformMidiSrc_passthrough. Qed.

Lemma C7_pass_through_witness :
  ¬ splittable 176 ∧
  fst (transformMidiSrc ({[7 := 3]} : gmap Z Z) tt [MNum 176; MNum 7; MNum 100])
  = [MNum 176; MNum 7; MNum 100].
Proof.
  assert (H : ¬ splittable 176) by (unfold splittable; lia).
  split; [exact H|].
  exact (C7_pass_through unit {[7 := 3]} tt 176 [MNum 7; MNum 100] H).
Defined.

(** C10. Message-kind preservation: with a table produced by
    [buildSplitTable], the status returned by [transformMidiSrc] agrees with
    the status received on the high nibble, so a Note On stays a Note On and
    a Note Off stays a Note Off; a message without a status is returned as
    it is. *)
Theorem C10_kind_preserved (T : Type) (splitDefinitions : JsValue)
  (table : gmap Z Z) (log : list Diag) (deltaTime : T) :
  buildSplitTable splitDefinitions = (Normal table, log) →
  (∀ (status : Z) (rest : list MidiValue),
     ∃ status' rest',
       fst (transformMidiSrc table deltaTime (MNum status :: rest))
       = MNum status' :: rest' ∧
       Z.land status' 240 = Z.land status 240 ∧
       (isNoteOn status' ↔ isNoteOn status) ∧
       (isGenuineNoteOff status' ↔ isGenuineNoteOff status)) ∧
  (∀ message : list MidiValue,
     nth 0 message MUndefined = MUndefined →
     fst (transformMidiSrc table deltaTime message) = message).
Proof.
  intros Hbuild. split; [|apply transformMidiSrc_short].
  intros status rest.
  pose proof (buildSplitTable_channels _ _ _ Hbuild) as Hinv.
  assert (Hsame : ∀ message, message = MNum status :: rest →
            fst (transformMidiSrc table deltaTime (MNum status :: rest)) = message →
            ∃ status' rest',
              fst (transformMidiSrc table deltaTime (MNum status :: rest))
              = MNum status' :: rest' ∧
              Z.land status' 240 = Z.land status 240 ∧
              (isNoteOn status' ↔ isNoteOn status) ∧
              (isGenuineNoteOff status' ↔ isGenuineNoteOff status)).
  { intros message -> ->. exists status, rest. tauto. }
  destruct (decide (128 <= status <= 159)) as [Hs|Hs].
  2:{ eapply Hsame; [reflexivity|]. apply transformMidiSrc_passthrough, Hs. }
  destruct rest as [|[|note] rest].
  1,2: eapply Hsame; [reflexivity|]; apply transformMidiSrc_unmapped; reflexivity.
  destruct (table !! note) as [channel|] eqn:Hn.
  2:{ eapply Hsame; [reflexivity|]. apply transformMidiSrc_unmapped. exact Hn. }
  pose proof (Hinv _ _ Hn) as Hc.
  rewrite (transformMidiSrc_reroute _ _ _ _ _ _ Hs Hn).
  do 2 eexists. split; [reflexivity|].
  split; [apply newStatus_high_nibble; lia|].
  rewrite newStatus_arith by lia.
  unfold isNoteOn, isGenuineNoteOff.
  rewrite (Z.mod_small status 256) by lia.
  pose proof (Z.mod_pos_bound status 16 ltac:(lia)) as Hm.
  pose proof (Z.div_mod status 16 ltac:(lia)) as Hd.
  assert (Hq : status / 16 = 8 ∨ status / 16 = 9).
  { assert (8 <= status / 16 < 10); [|lia].
    split; [apply Z.div_le_lower_bound | apply Z.div_lt_upper_bound]; lia. }
  lia.
Qed.

Lemma C10_kind_preserved_witness :
  buildSplitTable (JArr [encode (Range 60 63 3)])
  = (Normal (rangeLoop 4 60 63 3 ∅), []) ∧
  ∃ status' rest',
    fst (transformMidiSrc
           (rangeLoop 4 60 63 3 ∅) tt [MNum 144; MNum 61; MNum 90])
    = MNum status' :: rest' ∧
    Z.land status' 240 = Z.land 144 240 ∧
    (isNoteOn status' ↔ isNoteOn 144) ∧
    (isGenuineNoteOff status' ↔ isGenuineNoteOff 144).
Proof.
  assert (H : buildSplitTable (JArr [encode (Range 60 63 3)])
              = (Normal (rangeLoop 4 60 63 3 ∅), [])) by reflexivity.
  split; [exact H|].
  exact (proj1 (C10_kind_preserved unit _ _ _ tt H) 144 [MNum 61; MNum 90]).
Defined.

(** C2. Compiling the list made of one valid range definition [a..b -> c]
    yields a table that maps every note of [a,b] to [c] and has no entry for
    any other note. *)
Theorem C2_single_range (v : JsValue) (a b c : Z) :
  denotes v (Range a b c) → valid (Range a b c) →
  ∃ table,
    buildSplitTable (JArr [v]) = (Normal table, []) ∧
    ∀ n, (a <= n <= b → table !! n = Some c) ∧
         (¬ (a <= n <= b) → table !! n = None).
Proof.
  intros Hv Hvalid.
  destruct (applyDefinition_valid v _ 0%nat ∅ Hv Hvalid) as (table & Happ & Hlook).
  exists table. split.
  - cbn [buildSplitTable forEachDefinition]. rewrite Happ. reflexivity.
  - intros n. destruct (Hlook n) as [Hin Hout]. split; [exact Hin|].
    intros Hn. rewrite (Hout Hn). apply lookup_empty.
Qed.

Lemma C2_single_range_witness :
  denotes (encode (Range 60 63 3)) (Range 60 63 3) ∧ valid (Range 60 63 3) ∧
  ∃ table,
    buildSplitTable (JArr [encode (Range 60 63 3)]) = (Normal table, []) ∧
    ∀ n, (60 <= n <= 63 → table !! n = Some 3) ∧
         (¬ (60 <= n <= 63) → table !! n = None).
Proof.
  assert (H1 : denotes (encode (Range 60 63 3)) (Range 60 63 3))
    by (repeat split; reflexivity).
  assert (H2 : valid (Range 60 63 3)) by (simpl; lia).
  split; [exact H1|]. split; [exact H2|].
  exact (C2_single_range _ 60 63 3 H1 H2).
Defined.

(** C3. Last writer wins: for two valid definitions that both cover a note,
    compiling the first then the second maps the note to the channel of the
    second. *)
Theorem C3_last_writer_wins (v1 v2 : JsValue) (d1 d2 : SplitDefinition) (n : Z) :
  denotes v1 d1 → denotes v2 d2 → valid d1 → valid d2 →
  covers d1 n → covers d2 n →
  ∃ table,
    buildSplitTable (JArr [v1; v2]) = (Normal table, []) ∧
    table !! n = Some (channelOf d2).
Proof.
  intros Hv1 Hv2 Hd1 Hd2 _ Hn2.
  destruct (applyDefinition_valid v1 d1 0%nat ∅ Hv1 Hd1) as (t1 & Happ1 & _).
  destruct (applyDefinition_valid v2 d2 1%nat t1 Hv2 Hd2) as (t2 & Happ2 & Hlook).
  exists t2. split.
  - cbn [buildSplitTable forEachDefinition]. rewrite Happ1, Happ2. reflexivity.
  - apply Hlook, Hn2.
Qed.

Lemma C3_last_writer_wins_witness :
  ∃ table,
    buildSplitTable
      (JArr [encode (Range 60 63 3); encode (Enumeration [61; 62] 2)])
    = (Normal table, []) ∧
    table !! 61 = Some 2.
Proof.
  apply (C3_last_writer_wins _ _ (Range 60 63 3) (Enumeration [61; 62] 2) 61).
  - repeat split; reflexivity.
  - repeat split; reflexivity.
  - simpl. lia.
  - simpl. split; [|lia]. repeat constructor; lia.
  - simpl. lia.
  - simpl. apply list_elem_of_here.
Defined.

(** C4. [buildSplitTable] does throw on some inputs: an entry that is
    [null] makes the callback read a property of [null], the exception
    leaves [buildSplitTable], and the entries after it are not processed. *)
Theorem C4_null_entry_throws :
  buildSplitTable (JArr [JNull]) = (Throw TypeError, []) ∧
  buildSplitTable (JArr [JNull; encode (Range 60 63 3)]) = (Throw TypeError, []) ∧
  buildSplitTable (JArr [JStr "x"; JNull; encode (Range 60 63 3)])
  = (Throw TypeError,
     [mkDiag warn (MsgSkipUnknownType 0 JUndefined) (Some (JStr "x"))]).
Proof. repeat split; reflexivity. Qed.

(** ** The engine: set-up and shutdown *)

Section Engine.

Implicit Types (w : World) (s : Vars) (evs : list Event).

(** Unfold the monad's operations in the goal. *)
Ltac run :=
  cbv [mbind M_bind bind mret M_ret ret emit emitAll monitor throw processExit
       liftCompletion getVars putVars setOutput setInputs setMidiTransformer
       setCleanupCalled]; cbn [app].

(** [setupMidiInput] in closed form. *)
Lemma setupMidiInput_closed w portIndex out exclusions s :
  setupMidiInput w portIndex out exclusions s
  = if existsb (λ pattern, lineMatches pattern (getInputPortName w portIndex))
         exclusions
    then (Normal None, s, [])
    else if openInputFails w portIndex
         then (Throw NativeError, s, [])
         else (Normal (Some portIndex), s,
               [EvOpenInput portIndex; EvSubscribe portIndex]).
Proof.
  unfold setupMidiInput. run. rewrite isExcluded_closed.
  destruct (existsb _ exclusions); [reflexivity|].
  destruct (openInputFails w portIndex); reflexivity.
Qed.

(** Shutdown from a state where it has not run and an output is set. *)
Lemma cleanup_first s out :
  cleanupCalled s = false → output s = Some out →
  cleanup s
  = (Exit None,
     mkVars (transformMidi s) (inputInstances s) (output s) true,
     EvDiag (mkDiag info MsgExiting None)
       :: (EvCloseInput <$> inputInstances s)
       ++ [EvCloseOutput out; EvDiag (mkDiag debug MsgClosedEverything None)]).
Proof.
  intros Hc Ho. unfold cleanup. run. rewrite Hc, Ho. cbn [app].
  reflexivity.
Qed.

(** Shutdown once it has run. *)
Lemma cleanup_again s :
  cleanupCalled s = true → cleanup s = (Normal tt, s, []).
Proof.
  intros Hc. unfold cleanup. run. rewrite Hc. reflexivity.
Qed.

Lemma cleanup_sets_flag s :
  cleanupCalled (snd (fst (cleanup s))) = true.
Proof.
  unfold cleanup. run.
  destruct (cleanupCalled s) eqn:Hc; [exact Hc|]. run.
  destruct (output s); reflexivity.
Qed.

(** Whatever the first shutdown request did, the next one does nothing. *)
Lemma cleanup_idempotent s :
  cleanup (snd (fst (cleanup s))) = (Normal tt, snd (fst (cleanup s)), []).
Proof. apply cleanup_again, cleanup_sets_flag. Qed.

(** Without an output to close, shutdown closes the inputs and then fails
    on the output. *)
Lemma cleanup_without_output s :
  cleanupCalled s = false → output s = None →
  cleanup s
  = (Throw TypeError,
     mkVars (transformMidi s) (inputInstances s) (output s) true,
     EvDiag (mkDiag info MsgExiting None)
       :: (EvCloseInput <$> inputInstances s)).
Proof.
  intros Hc Ho. unfold cleanup. run. rewrite Hc, Ho. cbn [app].
  rewrite app_nil_r. reflexivity.
Qed.

Lemma lastMatch_none names i vOutPortName :
  (∀ name, name ∈ names → name ≠ vOutPortName) →
  lastMatch names i vOutPortName None = None.
Proof.
  revert i. induction names as [|name rest IH]; intros i Hnames; [reflexivity|].
  cbn [lastMatch].
  destruct (String.eqb_spec name vOutPortName) as [Heq|_].
  - exfalso. apply (Hnames name); [apply list_elem_of_here | exact Heq].
  - apply IH. intros name' Hin. apply Hnames. now apply list_elem_of_further.
Qed.

(** A port found by the search has the configured name. *)
Lemma lastMatch_named names i vOutPortName found j :
  lastMatch names i vOutPortName found = Some j →
  found = Some j ∨ ((i <= j)%nat ∧ names !! (j - i)%nat = Some vOutPortName).
Proof.
  revert i found. induction names as [|name rest IH]; intros i found; cbn [lastMatch].
  - now left.
  - intros Hlast. destruct (IH _ _ Hlast) as [Hfound|[Hle Hname]].
    + destruct (String.eqb_spec name vOutPortName) as [->|_]; [|now left].
      injection Hfound as <-. right. split; [lia|].
      now rewrite Nat.sub_diag.
    + right. split; [lia|].
      replace (j - i)%nat with (S (j - S i)) by lia. exact Hname.
Qed.

(** With several ports of the configured name, the search keeps the last. *)
Lemma lastMatch_last :
  lastMatch ["X"; "a"; "X"] 0 "X" None = Some 2%nat.
Proof. reflexivity. Qed.

(** The search loop only emits diagnostics and leaves the last match. *)
Lemma searchOutput_closed names i vOutPortName found s :
  ∃ evs,
    searchOutput names i vOutPortName found s
    = (Normal (lastMatch names i vOutPortName found), s, evs) ∧
    forallb isSilent evs = true.
Proof.
  revert i found. induction names as [|name rest IH]; intros i found.
  - exists []. split; reflexivity.
  - cbn [searchOutput lastMatch]. run.
    destruct (IH (S i) (if String.eqb name vOutPortName then Some i else found))
      as (evs & -> & Hsilent).
    eexists. split; [reflexivity|]. exact Hsilent.
Qed.

(** Attaching inputs leaves the module variables alone, opens only ports
    that no exclusion matches, and returns the ports it opened, in order. *)
Lemma attachInputs_events w remaining i out exclusions instances s :
  ∃ c evs,
    attachInputs w remaining i out exclusions instances s = (c, s, evs) ∧
    Forall (attachEvent w exclusions) evs ∧
    ∀ l, c = Normal l → l = instances ++ openedInputs evs.
Proof.
  revert i instances.
  induction remaining as [|remaining IH]; intros i instances.
  - do 2 eexists. split; [reflexivity|]. split; [constructor|].
    intros l [= <-]. symmetry. apply app_nil_r.
  - cbn [attachInputs]. run. rewrite setupMidiInput_closed.
    destruct (existsb _ exclusions) eqn:Hex.
    + destruct (IH (S i) instances) as (c & evs & -> & Hevs & Hl).
      do 2 eexists. split; [reflexivity|]. cbn [app]. split.
      * constructor; [exact I | exact Hevs].
      * exact Hl.
    + destruct (openInputFails w i).
      * do 2 eexists. split; [reflexivity|]. split; [constructor|].
        intros l Hl. discriminate Hl.
      * destruct (IH (S i) (instances ++ [i])) as (c & evs & -> & Hevs & Hl).
        do 2 eexists. split; [reflexivity|]. cbn [app]. split.
        -- repeat constructor; assumption.
        -- intros l Hc. rewrite (Hl l Hc), <- app_assoc. reflexivity.
Qed.

Lemma openedInputs_app evs1 evs2 :
  openedInputs (evs1 ++ evs2) = openedInputs evs1 ++ openedInputs evs2.
Proof. apply omap_app. Qed.

Lemma openedInputs_silent evs :
  forallb isSilent evs = true → openedInputs evs = [].
Proof.
  induction evs as [|e evs IH]; [reflexivity|].
  cbn [forallb]. intros [He Hevs]%andb_prop.
  destruct e; try discriminate He; exact (IH Hevs).
Qed.

Lemma orderly_silent w exclusions pre post :
  forallb isSilent pre = true → orderly w exclusions post →
  orderly w exclusions (pre ++ post).
Proof.
  induction pre as [|e pre IH]; intros Hpre Hpost; [exact Hpost|].
  cbn [forallb] in Hpre. apply andb_prop in Hpre as [He Hpre].
  destruct e; try discriminate He; cbn [app orderly]; auto.
Qed.

Lemma orderly_all_silent w exclusions evs :
  forallb isSilent evs = true → orderly w exclusions evs.
Proof.
  intros Hevs. rewrite <- (app_nil_r evs).
  apply orderly_silent; [exact Hevs | exact I].
Qed.


(** In an orderly trace an input that is opened matches no exclusion. *)
Lemma orderly_opened_not_excluded w exclusions evs i :
  orderly w exclusions evs → EvOpenInput i ∈ evs →
  existsb (λ pattern, lineMatches pattern (getInputPortName w i)) exclusions
  = false.
Proof.
  induction evs as [|e evs IH]; intros Hord Hin.
  - now apply elem_of_nil in Hin.
  - apply elem_of_cons in Hin as [<-|Hin].
    + destruct Hord as [Hsil _]. discriminate Hsil.
    + destruct e; cbn [orderly] in Hord;
        try (destruct Hord as [_ Hord]; now apply IH).
      rewrite Forall_forall in Hord. apply (Hord _ Hin).
Qed.

(** The run of [execute]: its events are orderly; when no output port has
    the configured name, no port is touched, the module variables other
    than the transformer keep their values, and the run ends by
    [process.exit(2)] provided the split table compiled. *)
Lemma execute_shape w inputData s :
  ∃ c s' evs,
    execute w inputData s = (c, s', evs) ∧
    orderly w (virtualOutputName inputData :: exclusionsOf inputData) evs ∧
    (lastMatch (outputPorts w) 0 (virtualOutputName inputData) None = None →
     forallb isSilent evs = true ∧
     inputInstances s' = inputInstances s ∧ output s' = output s ∧
     ∀ table log,
       buildSplitTable (splitDefinitionsOf inputData) = (Normal table, log) →
       c = Exit (Some 2)).
Proof.
  unfold execute.
  destruct (buildSplitTable (splitDefinitionsOf inputData)) as [built diags].
  assert (Hdiags : forallb isSilent (EvDiag <$> diags) = true).
  { induction diags; [reflexivity | assumption]. }
  assert (Hdebug : ∀ s0, ∃ evs0,
             (if debugFlag inputData then emit EvSetDebugMode else mret ()) s0
             = (Normal tt, s0, evs0) ∧ forallb isSilent evs0 = true).
  { intros s0. destruct (debugFlag inputData); eexists; split; reflexivity. }
  destruct (Hdebug s) as (evs0 & Hrun0 & Hsil0).
  run. unfold emit, mret, M_ret, ret in Hrun0. rewrite Hrun0. clear Hrun0 Hdebug.
  destruct built as [table|e|code].
  2,3: do 3 eexists; split; [reflexivity|]; split;
       [apply orderly_all_silent|intros _; split; [|repeat split; discriminate]];
       rewrite forallb_app, Hsil0, forallb_app, Hdiags; reflexivity.
  match goal with
  | |- context [searchOutput ?names ?i ?v ?found ?st] =>
      destruct (searchOutput_closed names i v found st) as (evs1 & -> & Hsil1)
  end.
  assert (Hall : ∀ tail, forallb isSilent tail = true →
            forallb isSilent
              (evs0 ++ (EvDiag <$> diags) ++
               EvDiag (mkDiag debug (MsgFoundOutputs (List.length (outputPorts w))) None)
               :: EvDiag (mkDiag debug (MsgSearching (virtualOutputName inputData)) None)
               :: evs1 ++ tail) = true).
  { intros tail Htail. rewrite !forallb_app, Hsil0, Hdiags. cbn [forallb isSilent andb].
    rewrite forallb_app, Hsil1, Htail. reflexivity. }
  destruct (lastMatch (outputPorts w) 0 (virtualOutputName inputData) None)
    as [idx|] eqn:Hlast.
  - destruct (openOutputFails w idx).
    + do 3 eexists. split; [reflexivity|]. split; [|discriminate].
      apply orderly_all_silent, Hall. reflexivity.
    + match goal with
      | |- context [attachInputs ?w' ?r ?i ?o ?ex ?ins ?st] =>
          destruct (attachInputs_events w' r i o ex ins st)
            as (c2 & evs2 & -> & Hev2 & _)
      end.
      assert (Hord : ∀ tail,
                Forall (attachEvent w
                          (virtualOutputName inputData :: exclusionsOf inputData)) tail →
                orderly w (virtualOutputName inputData :: exclusionsOf inputData)
                  (evs0 ++ (EvDiag <$> diags) ++
                   EvDiag (mkDiag debug (MsgFoundOutputs (List.length (outputPorts w))) None)
                   :: EvDiag (mkDiag debug (MsgSearching (virtualOutputName inputData)) None)
                   :: evs1 ++
                   EvOpenOutput idx
                   :: EvDiag (mkDiag info (MsgConnected (virtualOutputName inputData)) None)
                   :: EvDiag (mkDiag debug (MsgFoundInputs (List.length (inputPorts w))) None)
                   :: evs2 ++ tail)).
      { intros tail Htail.
        apply orderly_silent; [exact Hsil0|].
        apply orderly_silent; [exact Hdiags|]. cbn [orderly isSilent].
        split; [reflexivity|]. split; [reflexivity|].
        apply orderly_silent; [exact Hsil1|]. cbn [orderly].
        repeat (constructor; [exact I|]).
        apply Forall_app_2; assumption. }
      destruct c2 as [[|input inputs]|e|code];
        do 3 eexists; (split; [reflexivity|]); (split; [|discriminate]).
      * apply (Hord [_]). repeat constructor.
      * apply (Hord []). constructor.
      * rewrite <- (app_nil_r evs2). apply (Hord []). constructor.
      * rewrite <- (app_nil_r evs2). apply (Hord []). constructor.
  - do 3 eexists. split; [reflexivity|].
    split; [apply orderly_all_silent, Hall; reflexivity|].
    intros _. split; [apply Hall; reflexivity|]. repeat split; reflexivity.
Qed.

(** A run of [execute] that returns: the split table compiled, the output
    found is open and recorded, and the module variable [inputInstances]
    holds the input ports the run opened (none when 1 is returned). *)
Lemma execute_running w inputData s code s' evs :
  execute w inputData s = (Normal code, s', evs) →
  ∃ table log out,
    buildSplitTable (splitDefinitionsOf inputData) = (Normal table, log) ∧
    lastMatch (outputPorts w) 0 (virtualOutputName inputData) None = Some out ∧
    transformMidi s' = Some table ∧ output s' = Some out ∧
    cleanupCalled s' = cleanupCalled s ∧ EvOpenOutput out ∈ evs ∧
    ((code = 1 ∧ openedInputs evs = [] ∧ inputInstances s' = inputInstances s) ∨
     (code = 3 ∧ openedInputs evs ≠ [] ∧ inputInstances s' = openedInputs evs)).
Proof.
  unfold execute.
  destruct (buildSplitTable (splitDefinitionsOf inputData)) as [built diags].
  assert (Hdiags : forallb isSilent (EvDiag <$> diags) = true).
  { induction diags; [reflexivity | assumption]. }
  assert (Hdebug : ∃ evs0,
             (if debugFlag inputData then emit EvSetDebugMode else mret ()) s
             = (Normal tt, s, evs0) ∧ forallb isSilent evs0 = true).
  { destruct (debugFlag inputData); eexists; split; reflexivity. }
  destruct Hdebug as (evs0 & Hrun0 & Hsil0).
  run. unfold emit, mret, M_ret, ret in Hrun0. rewrite Hrun0. clear Hrun0.
  destruct built as [table|e|c]; try discriminate.
  match goal with
  | |- context [searchOutput ?names ?i ?v ?found ?st] =>
      destruct (searchOutput_closed names i v found st) as (evs1 & -> & Hsil1)
  end.
  destruct (lastMatch (outputPorts w) 0 (virtualOutputName inputData) None)
    as [idx|]; try discriminate.
  destruct (openOutputFails w idx); try discriminate.
  match goal with
  | |- context [attachInputs ?w' ?r ?i ?o ?ex ?ins ?st] =>
      destruct (attachInputs_events w' r i o ex ins st)
        as (c2 & evs2 & -> & _ & Hl)
  end.
  assert (Hopened : ∀ tail, forallb isSilent tail = true →
            openedInputs
              (evs0 ++ (EvDiag <$> diags) ++
               EvDiag (mkDiag debug (MsgFoundOutputs (List.length (outputPorts w))) None)
               :: EvDiag (mkDiag debug (MsgSearching (virtualOutputName inputData)) None)
               :: evs1 ++
               EvOpenOutput idx
               :: EvDiag (mkDiag info (MsgConnected (virtualOutputName inputData)) None)
               :: EvDiag (mkDiag debug (MsgFoundInputs (List.length (inputPorts w))) None)
               :: evs2 ++ tail)
            = openedInputs evs2).
  { intros tail Htail.
    rewrite openedInputs_app, (openedInputs_silent _ Hsil0).
    rewrite openedInputs_app, (openedInputs_silent _ Hdiags).
    change (openedInputs (?a :: ?b :: evs1 ++ ?rest))
      with (openedInputs (evs1 ++ rest)).
    rewrite openedInputs_app, (openedInputs_silent _ Hsil1).
    change (openedInputs (EvOpenOutput idx :: ?a :: ?b :: evs2 ++ tail))
      with (openedInputs (evs2 ++ tail)).
    rewrite openedInputs_app, (openedInputs_silent _ Htail).
    apply app_nil_r. }
  assert (Hmem : ∀ tail,
            EvOpenOutput idx ∈
              evs0 ++ (EvDiag <$> diags) ++
              EvDiag (mkDiag debug (MsgFoundOutputs (List.length (outputPorts w))) None)
              :: EvDiag (mkDiag debug (MsgSearching (virtualOutputName inputData)) None)
              :: evs1 ++ EvOpenOutput idx :: tail).
  { intros tail. apply elem_of_app. right. apply elem_of_app. right.
    do 2 apply list_elem_of_further. apply elem_of_app. right.
    apply list_elem_of_here. }
  destruct c2 as [[|input inputs]|e|c]; try discriminate.
  - intros [= <- <- <-]. exists table, diags, idx.
    repeat (split; [reflexivity|]). split; [apply Hmem|]. left.
    split; [reflexivity|]. split; [|reflexivity].
    rewrite (Hopened [_]) by reflexivity.
    specialize (Hl [] eq_refl). symmetry. exact Hl.
  - intros [= <- <- <-]. exists table, diags, idx.
    repeat (split; [reflexivity|]). split; [apply Hmem|]. right.
    split; [reflexivity|].
    rewrite (Hopened []) by reflexivity.
    specialize (Hl _ eq_refl). cbn [app] in Hl. rewrite <- Hl.
    split; [discriminate | reflexivity].
Qed.

(** A whole session: a run of [execute] that keeps the process alive,
    followed by a shutdown request, closes exactly the input ports the run
    opened, in the order they were opened, then the output port it opened;
    a further request does nothing. *)
Lemma session_shutdown w inputData s s' evs :
  cleanupCalled s = false →
  execute w inputData s = (Normal 3, s', evs) →
  ∃ out s'',
    EvOpenOutput out ∈ evs ∧
    cleanup s'
    = (Exit None, s'',
       EvDiag (mkDiag info MsgExiting None)
         :: (EvCloseInput <$> openedInputs evs)
         ++ [EvCloseOutput out; EvDiag (mkDiag debug MsgClosedEverything None)]) ∧
    cleanup s'' = (Normal tt, s'', []).
Proof.
  intros Hflag Hrun.
  destruct (execute_running _ _ _ _ _ _ Hrun)
    as (table & log & out & _ & _ & _ & Hout & Hc & Hopen &
        [(Hcode & _)|(_ & _ & Hin)]).
  { discriminate Hcode. }
  rewrite <- Hc in Hflag.
  eexists out, _. split; [exact Hopen|]. split.
  - rewrite (cleanup_first s' out Hflag Hout), Hin. reflexivity.
  - apply cleanup_again. reflexivity.
Qed.

(** A session on the example machine: the input called like the virtual
    output and the excluded controller are skipped, the keyboard is
    attached; a Note On for a note of the table leaves on channel 3, one
    for another note leaves as it came, a control change too. *)
Lemma example_session :
  ∃ s evs,
    execute exampleWorld exampleData initialVars = (Normal 3, s, evs) ∧
    openedInputs evs = [1%nat] ∧ inputInstances s = [1%nat] ∧
    output s = Some 1%nat ∧
    snd (handleMessage tt [MNum 144; MNum 61; MNum 90] s)
    = [EvDiag (mkDiag debug (MsgNote NOTE_ON (MNum 61)) None);
       EvDiag (mkDiag debug (MsgReroutedToChannel 2) None);
       EvSend (Some [MNum 146; MNum 61; MNum 90])] ∧
    snd (handleMessage tt [MNum 144; MNum 70; MNum 90] s)
    = [EvDiag (mkDiag debug (MsgNote NOTE_ON (MNum 70)) None);
       EvSend (Some [MNum 144; MNum 70; MNum 90])] ∧
    snd (handleMessage tt [MNum 176; MNum 61; MNum 90] s)
    = [EvDiag (mkDiag debug (MsgNote VALUE (MNum 61)) None);
       EvSend (Some [MNum 176; MNum 61; MNum 90])].
Proof. do 2 eexists. repeat split; vm_compute; reflexivity. Qed.

End Engine.

(** ** Properties of the admission policy, the matcher and the engine *)

(** The three matches the specification lists, and a few about escaping. *)
Lemma wildcardMatches_examples :
  wildcardMatches "Akai*" "Akai MPK Mini" = Normal true ∧
  wildcardMatches "Alesis V??" "Alesis V61" = Normal true ∧
  wildcardMatches "Alesis V??" "Alesis V6" = Normal false ∧
  wildcardMatches "Akai" "Akai MPK Mini" = Normal false ∧
  wildcardMatches "MPK" "Akai MPK Mini" = Normal false ∧
  wildcardMatches "a.c" "abc" = Normal false ∧
  wildcardMatches "a.c" "a.c" = Normal true ∧
  wildcardMatches "(x|y)+[z]" "(x|y)+[z]" = Normal true ∧
  wildcardMatches "Ctrl*" "Controller A" = Normal false ∧
  wildcardMatches "Contr*" "Controller A" = Normal true ∧
  wildcardMatches "*" EmptyString = Normal true ∧
  wildcardMatches EmptyString EmptyString = Normal true.
Proof. repeat split; reflexivity. Qed.

(** The matcher is total, and on a candidate without line terminators it
    decides exactly what the specification says. *)
Lemma wildcardMatches_spec pattern candidate :
  singleLine candidate = true →
  wildcardMatches pattern candidate = Normal (specMatches pattern candidate).
Proof.
  intros Hline. rewrite wildcardMatches_closed, lineMatches_singleLine by assumption.
  reflexivity.
Qed.

(** C6. The matcher departs from "[?] matches exactly one arbitrary
    character, [*] zero or more arbitrary characters" on line terminators:
    the pattern [?] does not match the one-character string made of a line
    feed, and [*] does not match a string that contains one. *)
Theorem C6_line_terminators_not_matched :
  wildcardMatches "?" (String "010" EmptyString) = Normal false ∧
  specMatches "?" (String "010" EmptyString) = true ∧
  wildcardMatches "*" ("a" +:+ String "013" "b") = Normal false ∧
  specMatches "*" ("a" +:+ String "013" "b") = true.
Proof. repeat split; reflexivity. Qed.

(** C5. Feedback prevention: whatever the exclusion patterns, the port
    whose name is the virtual output name is not admitted; [setupMidiInput]
    returns [null] for it without opening it, and no run of [execute] opens
    an input port of that name. *)
Theorem C5_feedback_prevention :
  (∀ (virtualOutputName : string) (exclusionPatterns : list string),
     shouldAttach virtualOutputName virtualOutputName exclusionPatterns
     = Normal false) ∧
  (∀ (w : World) (portIndex out : nat) (exclusionPatterns : list string)
     (s : Vars),
     setupMidiInput w portIndex out
       (getInputPortName w portIndex :: exclusionPatterns) s
     = (Normal None, s, [])) ∧
  (∀ (w : World) (inputData : InputData) (s : Vars) (i : nat),
     EvOpenInput i ∈ snd (execute w inputData s) →
     getInputPortName w i ≠ virtualOutputName inputData).
Proof.
  split; [|split].
  - intros v excl. unfold shouldAttach.
    rewrite isExcluded_head by apply lineMatches_self. reflexivity.
  - intros w portIndex out excl s. rewrite setupMidiInput_closed.
    cbn [existsb]. rewrite lineMatches_self. reflexivity.
  - intros w inputData s i Hin Hname.
    destruct (execute_shape w inputData s) as (c & s' & evs & Hrun & Hord & _).
    rewrite Hrun in Hin. cbn [snd] in Hin.
    pose proof (orderly_opened_not_excluded _ _ _ _ Hord Hin) as Hex.
    cbn [existsb] in Hex. rewrite Hname, lineMatches_self in Hex.
    discriminate Hex.
Qed.

Lemma C5_feedback_prevention_witness :
  shouldAttach "X" "X" ["Controller*"] = Normal false ∧
  setupMidiInput exampleWorld 2 1 (getInputPortName exampleWorld 2 :: ["Controller*"])
    initialVars = (Normal None, initialVars, []) ∧
  getInputPortName exampleWorld 1 ≠ virtualOutputName exampleData.
Proof.
  split; [|split].
  - apply (proj1 C5_feedback_prevention).
  - apply (proj1 (proj2 C5_feedback_prevention)).
  - apply (proj2 (proj2 C5_feedback_prevention) exampleWorld exampleData initialVars).
    vm_compute.
    repeat first [apply list_elem_of_here | apply list_elem_of_further].
Defined.


(** * Further properties of the code *)

(** Case analysis on a decision or a comparison of the goal. *)
Ltac split_decide :=
  match goal with
  | |- context [decide ?P] => destruct (decide P) as [?Hyes|?Hno]
  end.

(** ** The split table compiler, beyond valid input *)

Section CompilerFurther.

Implicit Types (t : gmap Z Z) (v : JsValue).

Lemma strictEqStr_true ty s : strictEqStr ty s = true → ty = JStr s.
Proof.
  destruct ty; try discriminate. simpl. intros H%String.eqb_eq. now subst.
Qed.

Lemma forallb_isMidiNumber_inv (l : list JsValue) :
  forallb isMidiNumber l = true →
  ∃ ns, l = JNum <$> ns ∧ Forall (λ n, 0 <= n <= 127) ns.
Proof.
  induction l as [|x l IH]; cbn [forallb].
  - exists []. split; [reflexivity | constructor].
  - intros [Hx Hl]%andb_prop. destruct (IH Hl) as (ns & -> & Hns).
    destruct x; try discriminate Hx. cbn [isMidiNumber] in Hx.
    apply andb_prop in Hx as [H0 H127]. apply Z.leb_le in H0, H127.
    exists (z :: ns). split; [reflexivity|]. constructor; [lia | exact Hns].
Qed.

(** An entry applied without diagnostic is a valid definition. *)
Lemma applyDefinition_silent v index t t' :
  applyDefinition v index t = Normal (t', []) → wellFormedEntry v.
Proof.
  unfold applyDefinition. stepC.
  destruct (getProp v "type") as [ty| |] eqn:Hty; try discriminate.
  destruct (strictEqStr ty "range") eqn:Hrange.
  - apply strictEqStr_true in Hrange. subst ty.
    destruct (getProp v "midiFrom") as [[]| |] eqn:Hfrom;
      destruct (getProp v "midiTo") as [[]| |] eqn:Hto;
      destruct (getProp v "channel") as [[]| |] eqn:Hch;
      try discriminate.
    match goal with |- context [if ?b then _ else _] => destruct b eqn:Hb end;
      [|discriminate].
    intros _.
    repeat (apply andb_prop in Hb; destruct Hb as [Hb ?]).
    repeat match goal with H : (_ <=? _) = true |- _ => apply Z.leb_le in H end.
    eexists (Range _ _ _). split; [repeat split; eassumption|].
    simpl. lia.
  - destruct (strictEqStr ty "enumeration") eqn:Henum;
      [|destruct (stringable ty); discriminate].
    apply strictEqStr_true in Henum. subst ty.
    destruct (getProp v "midi") as [[]| |] eqn:Hmidi;
      destruct (getProp v "channel") as [[]| |] eqn:Hch;
      try discriminate.
    match goal with |- context [if ?b then _ else _] => destruct b eqn:Hb end;
      [|discriminate].
    intros _.
    repeat (apply andb_prop in Hb; destruct Hb as [Hb ?]).
    repeat match goal with H : (_ <=? _) = true |- _ => apply Z.leb_le in H end.
    destruct (forallb_isMidiNumber_inv _ Hb) as (ns & -> & Hns).
    eexists (Enumeration ns _). split; [repeat split; eassumption|].
    simpl. split; [exact Hns | lia].
Qed.

Lemma coversb_covers d n : coversb d n = true ↔ covers d n.
Proof.
  destruct d as [a b c|ns c]; simpl.
  - rewrite andb_true_iff, !Z.leb_le. reflexivity.
  - apply bool_decide_eq_true.
Qed.

(** A tolerated entry that is not a valid definition is discarded. *)
Lemma applyDefinition_discards v :
  tolerated v → ¬ wellFormedEntry v → discards v.
Proof.
  intros Hv Hbad index t.
  destruct (applyDefinition_tolerated v index t Hv)
    as (t' & ds & Happ & [-> | (-> & m & ->)]).
  - exfalso. eapply Hbad, applyDefinition_silent, Happ.
  - eauto.
Qed.

(** A valid definition is not discarded. *)
Lemma discards_not_wellFormed v : discards v → ¬ wellFormedEntry v.
Proof.
  intros Hdisc (d & Hd & Hvalid).
  destruct (Hdisc 0%nat ∅) as (m & Happ).
  destruct (applyDefinition_valid v d 0%nat ∅ Hd Hvalid) as (t1 & Happ1 & _).
  congruence.
Qed.

Lemma lastWriter_app ds1 ds2 n before :
  lastWriter (ds1 ++ ds2) n before = lastWriter ds2 n (lastWriter ds1 n before).
Proof.
  revert before. induction ds1 as [|d ds1 IH]; intros before; [reflexivity|].
  cbn [app lastWriter]. apply IH.
Qed.

(** The iteration over entries that [Reads] accepts. *)
Lemma forEachDefinition_reads vs ds :
  Reads vs ds →
  ∀ index t log,
    ∃ t' log',
      forEachDefinition vs index t log = (Normal t', log ++ log') ∧
      (∀ n, t' !! n = lastWriter ds n (t !! n)) ∧
      (List.length log' + List.length ds = List.length vs)%nat ∧
      Forall (λ d, type d = warn ∧ ∃ v, v ∈ vs ∧ data d = Some v) log'.
Proof.
  induction 1 as [|v d vs ds Hv Hd _ IH|v vs ds Hdisc _ IH]; intros index t log.
  - exists t, []. rewrite app_nil_r. repeat split; constructor.
  - destruct (applyDefinition_valid v d index t Hv Hd) as (t1 & Happ & Hlook).
    destruct (IH (S index) t1 (log ++ [])) as (t' & log' & Hrun & Hlast & Hlen & Hlog).
    exists t', log'. cbn [forEachDefinition]. rewrite Happ, Hrun, app_nil_r.
    split; [reflexivity|]. split; [|split].
    + intros n. rewrite Hlast. cbn [lastWriter]. f_equal.
      destruct (Hlook n) as [Hin Hout].
      destruct (coversb d n) eqn:Hc.
      * apply Hin, coversb_covers, Hc.
      * apply Hout. intros Hcov%coversb_covers. congruence.
    + cbn [List.length]. lia.
    + eapply Forall_impl; [exact Hlog|].
      intros x (Hx & v' & Hin & Hdata). split; [exact Hx|].
      exists v'. split; [now apply list_elem_of_further | exact Hdata].
  - destruct (Hdisc index t) as (m & Happ).
    destruct (IH (S index) t (log ++ [mkDiag warn m (Some v)]))
      as (t' & log' & Hrun & Hlast & Hlen & Hlog).
    exists t', (mkDiag warn m (Some v) :: log').
    cbn [forEachDefinition]. rewrite Happ, Hrun, <- app_assoc.
    split; [reflexivity|]. split; [exact Hlast|]. split.
    + cbn [List.length]. lia.
    + constructor.
      * split; [reflexivity|]. exists v. split; [apply list_elem_of_here | reflexivity].
      * eapply Forall_impl; [exact Hlog|].
        intros x (Hx & v' & Hin & Hdata). split; [exact Hx|].
        exists v'. split; [now apply list_elem_of_further | exact Hdata].
Qed.

(** Every list of tolerated entries is read as some list of
    definitions. *)
Lemma Reads_total vs : Forall tolerated vs → ∃ ds, Reads vs ds.
Proof.
  induction 1 as [|v vs Hv _ [ds IH]].
  - exists []. constructor.
  - destruct (applyDefinition_tolerated v 0%nat ∅ Hv)
      as (t' & log & Happ & [-> | (-> & m & ->)]).
    + destruct (applyDefinition_silent _ _ _ _ Happ) as (d & Hd & Hvalid).
      exists (d :: ds). now constructor.
    + exists ds. apply Reads_skip; [|exact IH].
      apply applyDefinition_discards; [exact Hv|].
      intros (d & Hd & Hvalid).
      destruct (applyDefinition_valid v d 0%nat ∅ Hd Hvalid) as (t1 & Happ1 & _).
      congruence.
Qed.

Lemma Reads_valid vs ds :
  Forall2 denotes vs ds → Forall valid ds → Reads vs ds.
Proof.
  induction 1 as [|v d vs ds Hv _ IH]; intros Hds; [constructor|].
  apply Forall_cons in Hds as [Hd Hds]. apply Reads_keep; auto.
Qed.

(** A list of valid definitions compiles without diagnostic, each note
    going to the channel of the last definition that covers it. *)
Lemma buildSplitTable_valid vs ds :
  Forall2 denotes vs ds → Forall valid ds → vs ≠ [] →
  ∃ t, buildSplitTable (JArr vs) = (Normal t, []) ∧
       ∀ n, t !! n = lastWriter ds n None.
Proof.
  intros Hvs Hds Hne.
  destruct (forEachDefinition_reads vs ds (Reads_valid _ _ Hvs Hds) 0%nat ∅ [])
    as (t & log & Hrun & Hlast & Hlen & _).
  assert (log = []) as ->.
  { apply Forall2_length in Hvs. destruct log; [reflexivity|].
    cbn [List.length] in Hlen. lia. }
  exists t. split.
  - destruct vs; [congruence | exact Hrun].
  - intros n. rewrite Hlast, lookup_empty. reflexivity.
Qed.

Lemma forEachDefinition_outcome vs index t log :
  (Forall tolerated vs ∧
   ∃ t' log', forEachDefinition vs index t log = (Normal t', log')) ∨
  (Exists (λ v, ¬ tolerated v) vs ∧
   ∃ log', forEachDefinition vs index t log = (Throw TypeError, log')).
Proof.
  revert index t log. induction vs as [|v vs IH]; intros index t log.
  - left. split; [constructor | eauto].
  - destruct (tolerated_or_fatal v) as [Hv|Hv].
    + destruct (applyDefinition_tolerated v index t Hv) as (t1 & ds & Happ & _).
      cbn [forEachDefinition]. rewrite Happ.
      destruct (IH (S index) t1 (log ++ ds)) as [(Hall & Hrun)|(Hex & Hrun)].
      * left. split; [now constructor | exact Hrun].
      * right. split; [now apply Exists_cons_tl | exact Hrun].
    + right. split.
      * apply Exists_cons_hd. intros Htol.
        exact (tolerated_not_fatal v index t Htol (Hv index t)).
      * cbn [forEachDefinition]. rewrite (Hv index t). eauto.
Qed.

Lemma rangeLoop_wellFormed fuel midi midiTo c t :
  0 <= midi → midiTo <= 127 → 1 <= c <= 16 →
  tableWellFormed t → tableWellFormed (rangeLoop fuel midi midiTo c t).
Proof.
  intros Hmidi Hto Hc. revert midi Hmidi t.
  induction fuel as [|fuel IH]; intros midi Hmidi t Ht; cbn [rangeLoop].
  - exact Ht.
  - destruct (Z.leb_spec midi midiTo) as [Hle|_]; [|exact Ht].
    apply IH; [lia|]. intros n c' Hn.
    destruct (decide (midi = n)) as [<-|Hne].
    + rewrite lookup_insert_eq in Hn. injection Hn as <-. lia.
    + rewrite lookup_insert_ne in Hn by assumption. eauto.
Qed.

Lemma enumLoop_wellFormed midi c t :
  forallb isMidiNumber midi = true → 1 <= c <= 16 →
  tableWellFormed t → tableWellFormed (enumLoop midi c t).
Proof.
  intros Hmidi Hc. revert t.
  induction midi as [|x midi IH]; intros t Ht; cbn [enumLoop]; [exact Ht|].
  cbn [forallb] in Hmidi. apply andb_prop in Hmidi as [Hx Hmidi].
  destruct x; try discriminate Hx. cbn [isMidiNumber] in Hx.
  apply andb_prop in Hx as [H0 H127]. apply Z.leb_le in H0, H127.
  apply IH; [exact Hmidi|]. intros n c' Hn.
  destruct (decide (z = n)) as [<-|Hne].
  - rewrite lookup_insert_eq in Hn. injection Hn as <-. lia.
  - rewrite lookup_insert_ne in Hn by assumption. eauto.
Qed.

Lemma applyDefinition_wellFormed v index t t' ds :
  applyDefinition v index t = Normal (t', ds) →
  tableWellFormed t → tableWellFormed t'.
Proof.
  unfold applyDefinition. stepC. intros Happ Ht.
  destruct (getProp v "type") as [ty| |]; try discriminate.
  destruct (strictEqStr ty "range").
  - destruct (getProp v "midiFrom") as [[]| |];
      destruct (getProp v "midiTo") as [[]| |];
      destruct (getProp v "channel") as [[]| |];
      try discriminate Happ;
      try (injection Happ as <- <-; assumption).
    match type of Happ with (if ?b then _ else _) = _ => destruct b eqn:Hb end;
      injection Happ as <- <-; [|assumption].
    repeat (apply andb_prop in Hb; destruct Hb as [Hb ?]).
    repeat match goal with H : (_ <=? _) = true |- _ => apply Z.leb_le in H end.
    apply rangeLoop_wellFormed; (assumption || lia).
  - destruct (strictEqStr ty "enumeration").
    + destruct (getProp v "midi") as [[]| |];
        destruct (getProp v "channel") as [[]| |];
        try discriminate Happ;
        try (injection Happ as <- <-; assumption).
      match type of Happ with (if ?b then _ else _) = _ => destruct b eqn:Hb end;
        injection Happ as <- <-; [|assumption].
      repeat (apply andb_prop in Hb; destruct Hb as [Hb ?]).
      repeat match goal with H : (_ <=? _) = true |- _ => apply Z.leb_le in H end.
      apply enumLoop_wellFormed; (assumption || lia).
    + destruct (stringable ty); [|discriminate Happ].
      injection Happ as <- <-; assumption.
Qed.

Lemma forEachDefinition_wellFormed vs index t log t' log' :
  forEachDefinition vs index t log = (Normal t', log') →
  tableWellFormed t → tableWellFormed t'.
Proof.
  revert index t log. induction vs as [|v vs IH]; intros index t log;
    cbn [forEachDefinition].
  - intros [= <- <-]. auto.
  - destruct (applyDefinition v index t) as [[t1 ds1]| |] eqn:Happ;
      try discriminate.
    intros Hrest Ht. eapply IH; [exact Hrest|].
    eapply applyDefinition_wellFormed; eassumption.
Qed.

End CompilerFurther.

(** X1. The outcomes of the callback on an entry that is not [null] or
    [undefined].  A valid definition is applied without any diagnostic.
    Any other entry is discarded, with exactly one warning that carries it
    and the table left as it was, unless its [type] is neither of the two
    tags and has no conversion to a string: then the callback throws a
    [TypeError].  The numbers of an entry are integers here: the statement
    is about entries without fractional numbers. *)
Theorem X1_entry_applied_discarded_or_fatal (v : JsValue) (index : nat)
  (t : gmap Z Z) :
  nonNullish v →
  (wellFormedEntry v ∧ ∃ t', applyDefinition v index t = Normal (t', [])) ∨
  (¬ wellFormedEntry v ∧ unprintableType v = false ∧
   ∃ m, applyDefinition v index t = Normal (t, [mkDiag warn m (Some v)])) ∨
  (¬ wellFormedEntry v ∧ unprintableType v = true ∧
   applyDefinition v index t = Throw TypeError).
Proof.
  intros Hv.
  assert (Hnot : ∀ c, (∀ t', applyDefinition v index t ≠ Normal (t', [])) →
                      applyDefinition v index t = c → ¬ wellFormedEntry v).
  { intros c Hc _ (d & Hd & Hvalid).
    destruct (applyDefinition_valid v d index t Hd Hvalid) as (t1 & Happ1 & _).
    exact (Hc t1 Happ1). }
  destruct (unprintableType v) eqn:Hty.
  - pose proof (applyDefinition_unprintable v index t Hty) as Happ.
    right. right. split; [|split; [reflexivity | exact Happ]].
    apply (Hnot _ ltac:(intros t' H; rewrite Happ in H; discriminate H) Happ).
  - destruct (applyDefinition_tolerated v index t (conj Hv Hty))
      as (t' & ds & Happ & [-> | (-> & m & ->)]).
    + left. split; [eapply applyDefinition_silent, Happ | eauto].
    + right. left. split; [|split; [reflexivity | eauto]].
      apply (Hnot _ ltac:(intros t' H; rewrite Happ in H; discriminate H) Happ).
Qed.

Lemma X1_entry_applied_discarded_or_fatal_witness :
  nonNullish (JObj [("type", JObj [("toString", JNull)])]) ∧
  ((wellFormedEntry (JObj [("type", JObj [("toString", JNull)])]) ∧
    ∃ t', applyDefinition (JObj [("type", JObj [("toString", JNull)])]) 5 ∅
          = Normal (t', [])) ∨
   (¬ wellFormedEntry (JObj [("type", JObj [("toString", JNull)])]) ∧
    unprintableType (JObj [("type", JObj [("toString", JNull)])]) = false ∧
    ∃ m, applyDefinition (JObj [("type", JObj [("toString", JNull)])]) 5 ∅
         = Normal (∅, [mkDiag warn m
                         (Some (JObj [("type", JObj [("toString", JNull)])]))])) ∨
   (¬ wellFormedEntry (JObj [("type", JObj [("toString", JNull)])]) ∧
    unprintableType (JObj [("type", JObj [("toString", JNull)])]) = true ∧
    applyDefinition (JObj [("type", JObj [("toString", JNull)])]) 5 ∅
    = Throw TypeError)).
Proof.
  assert (H : nonNullish (JObj [("type", JObj [("toString", JNull)])]))
    by (split; discriminate).
  split; [exact H|].
  exact (X1_entry_applied_discarded_or_fatal
           (JObj [("type", JObj [("toString", JNull)])]) 5 ∅ H).
Defined.

(** X2. A list whose entries are valid definitions mixed with entries
    the callback discards compiles to the table of its valid definitions
    alone, later definitions overwriting earlier ones; one warning is
    emitted per discarded entry, each carrying an entry of the list. *)
Theorem X2_discarded_entries_as_if_absent (vs : list JsValue)
  (ds : list SplitDefinition) :
  Reads vs ds → vs ≠ [] →
  ∃ t log,
    buildSplitTable (JArr vs) = (Normal t, log) ∧
    (∀ n, t !! n = lastWriter ds n None) ∧
    (List.length log + List.length ds = List.length vs)%nat ∧
    Forall (λ d, type d = warn ∧ ∃ v, v ∈ vs ∧ data d = Some v) log.
Proof.
  intros Hreads Hne.
  destruct (forEachDefinition_reads vs ds Hreads 0%nat ∅ [])
    as (t & log & Hrun & Hlast & Hlen & Hlog).
  exists t, log. split; [|split; [|split]].
  - destruct vs; [congruence | exact Hrun].
  - intros n. rewrite Hlast, lookup_empty. reflexivity.
  - exact Hlen.
  - exact Hlog.
Qed.

Lemma X2_discarded_entries_as_if_absent_witness :
  Reads
    [encode (Range 60 63 3); JStr "oops"; encode (Range 63 60 9);
     encode (Enumeration [61; 62] 2)]
    [Range 60 63 3; Enumeration [61; 62] 2] ∧
  ∃ t log,
    buildSplitTable
      (JArr
         [encode (Range 60 63 3); JStr "oops"; encode (Range 63 60 9);
     encode (Enumeration [61; 62] 2)])
    = (Normal t, log) ∧
    (∀ n, t !! n = lastWriter [Range 60 63 3; Enumeration [61; 62] 2] n None) ∧
    Nat.add (List.length log)
      (List.length [Range 60 63 3; Enumeration [61; 62] 2])
    = List.length
        [encode (Range 60 63 3); JStr "oops"; encode (Range 63 60 9);
         encode (Enumeration [61; 62] 2)] ∧
    Forall
      (λ d, type d = warn ∧
            ∃ v, v ∈ [encode (Range 60 63 3); JStr "oops"; encode (Range 63 60 9);
     encode (Enumeration [61; 62] 2)] ∧
                 data d = Some v) log.
Proof.
  assert (Hreads :
            Reads
              [encode (Range 60 63 3); JStr "oops"; encode (Range 63 60 9);
     encode (Enumeration [61; 62] 2)]
              [Range 60 63 3; Enumeration [61; 62] 2]).
  { apply Reads_keep; [repeat split; reflexivity | simpl; lia |].
    apply Reads_skip; [intros index t; eexists; reflexivity|].
    apply Reads_skip; [intros index t; eexists; reflexivity|].
    apply Reads_keep; [repeat split; reflexivity | |constructor].
    simpl. split; [repeat constructor; lia | lia]. }
  split; [exact Hreads|].
  refine (X2_discarded_entries_as_if_absent _ _ Hreads _). discriminate.
Defined.

(** X3. [buildSplitTable] ends in one of two ways on a list: by a
    [TypeError], exactly when some entry is [null] or [undefined] or has a
    [type] that is neither of the two tags and has no conversion to a
    string, and with a table otherwise; it never ends the process. *)
Theorem X3_throws_exactly_on_fatal_entries (vs : list JsValue) :
  (Forall (λ v, nonNullish v ∧ unprintableType v = false) vs ∧
   ∃ t log, buildSplitTable (JArr vs) = (Normal t, log)) ∨
  (Exists (λ v, v = JNull ∨ v = JUndefined ∨ unprintableType v = true) vs ∧
   ∃ log, buildSplitTable (JArr vs) = (Throw TypeError, log)).
Proof.
  destruct vs as [|v vs].
  - left. split; [constructor|]. do 2 eexists. reflexivity.
  - destruct (forEachDefinition_outcome (v :: vs) 0%nat ∅ [])
      as [(Hall & Hrun)|(Hex & Hrun)]; [left | right].
    + split; [exact Hall | exact Hrun].
    + split; [|exact Hrun].
      eapply Exists_impl; [exact Hex|]. intros x Hx.
      destruct (unprintableType x) eqn:Hty; [auto|].
      destruct x; try (exfalso; apply Hx; split; [split; discriminate | exact Hty]);
        auto.
Qed.

(** X4. The bounds of a table: whatever the input, every key of a table
    returned by [buildSplitTable] lies between 0 and 127 and every value
    between 1 and 16, the bounds the callback tests before it writes. *)
Theorem X4_table_well_formed (splitDefinitions : JsValue) (t : gmap Z Z)
  (log : list Diag) :
  buildSplitTable splitDefinitions = (Normal t, log) → tableWellFormed t.
Proof.
  assert (Hempty : tableWellFormed ∅).
  { intros n c Hn. rewrite lookup_empty in Hn. discriminate. }
  unfold buildSplitTable.
  destruct splitDefinitions as [| | | | |[|d ds]|];
    try (intros [= <- <-]; exact Hempty).
  intros Hrun. eapply forEachDefinition_wellFormed; eassumption.
Qed.

Lemma X4_table_well_formed_witness :
  tableWellFormed (rangeLoop 4 60 63 3 ∅).
Proof.
  apply (X4_table_well_formed (JArr [encode (Range 60 63 3)]) _ []).
  reflexivity.
Defined.

(** X5. Compiling the list made of one valid enumeration of notes maps
    exactly the enumerated notes to its channel, without diagnostic; an
    enumeration of no note at all yields the empty table. *)
Theorem X5_single_enumeration (v : JsValue) (ns : list Z) (c : Z) :
  denotes v (Enumeration ns c) → valid (Enumeration ns c) →
  ∃ t,
    buildSplitTable (JArr [v]) = (Normal t, []) ∧
    (∀ n, (n ∈ ns → t !! n = Some c) ∧ (n ∉ ns → t !! n = None)) ∧
    (ns = [] → t = ∅).
Proof.
  intros Hv Hvalid.
  destruct (applyDefinition_valid v _ 0%nat ∅ Hv Hvalid) as (t & Happ & Hlook).
  exists t. split; [|split].
  - cbn [buildSplitTable forEachDefinition]. rewrite Happ. reflexivity.
  - intros n. destruct (Hlook n) as [Hin Hout]. split; [exact Hin|].
    intros Hn. rewrite (Hout Hn). apply lookup_empty.
  - intros ->. apply map_eq. intros n. destruct (Hlook n) as [_ Hout].
    rewrite Hout; [reflexivity|]. simpl. apply not_elem_of_nil.
Qed.

Lemma X5_single_enumeration_witness :
  ∃ t,
    buildSplitTable (JArr [encode (Enumeration [64; 65; 66] 4)]) = (Normal t, []) ∧
    (∀ n, (n ∈ [64; 65; 66] → t !! n = Some 4) ∧
          (n ∉ [64; 65; 66] → t !! n = None)) ∧
    ([64; 65; 66] = [] → t = ∅).
Proof.
  apply (X5_single_enumeration _ [64; 65; 66] 4).
  - repeat split; reflexivity.
  - simpl. split; [repeat constructor; lia | lia].
Defined.

(** X6. Two valid definitions that share no note can be listed in either
    order: the compiled table is the same. *)
Theorem X6_disjoint_definitions_commute (v1 v2 : JsValue)
  (d1 d2 : SplitDefinition) :
  denotes v1 d1 → denotes v2 d2 → valid d1 → valid d2 →
  (∀ n, ¬ (covers d1 n ∧ covers d2 n)) →
  ∃ t,
    buildSplitTable (JArr [v1; v2]) = (Normal t, []) ∧
    buildSplitTable (JArr [v2; v1]) = (Normal t, []).
Proof.
  intros Hv1 Hv2 Hd1 Hd2 Hdisj.
  destruct (buildSplitTable_valid [v1; v2] [d1; d2]) as (t & Hrun & Hlook);
    [repeat constructor; assumption | repeat constructor; assumption
    | discriminate |].
  destruct (buildSplitTable_valid [v2; v1] [d2; d1]) as (t' & Hrun' & Hlook');
    [repeat constructor; assumption | repeat constructor; assumption
    | discriminate |].
  exists t. split; [exact Hrun|].
  rewrite Hrun'. do 2 f_equal. apply map_eq. intros n.
  rewrite Hlook, Hlook'. cbn [lastWriter].
  destruct (coversb d1 n) eqn:H1, (coversb d2 n) eqn:H2; try reflexivity.
  exfalso. apply (Hdisj n). split; apply coversb_covers; assumption.
Qed.

Lemma X6_disjoint_definitions_commute_witness :
  ∃ t,
    buildSplitTable
      (JArr [encode (Range 60 63 3); encode (Enumeration [64; 65] 4)])
    = (Normal t, []) ∧
    buildSplitTable
      (JArr [encode (Enumeration [64; 65] 4); encode (Range 60 63 3)])
    = (Normal t, []).
Proof.
  apply (X6_disjoint_definitions_commute _ _ (Range 60 63 3)
           (Enumeration [64; 65] 4)).
  - repeat split; reflexivity.
  - repeat split; reflexivity.
  - simpl. lia.
  - simpl. split; [repeat constructor; lia | lia].
  - intros n [Hr He]. simpl in Hr, He.
    apply elem_of_cons in He as [->|He]; [lia|].
    apply list_elem_of_singleton in He. lia.
Defined.

(** ** The message transformer, on any message and any table *)

(** Unfold the classification of a message and decide its comparisons. *)
Ltac classify_message :=
  unfold transformMidiSrc; cbn [nth geNum leNum strictEqNum numOf ownChannel];
  repeat match goal with
         | |- context [?a <=? ?b] => destruct (Z.leb_spec a b)
         end;
  cbn [andb orb]; try (exfalso; lia).

Lemma transformMidiSrc_cases {T : Type} (table : gmap Z Z) (deltaTime : T)
  (message : list MidiValue) :
  fst (transformMidiSrc table deltaTime message) = message ∨
  ∃ status note channel,
    nth 0 message MUndefined = MNum status ∧ 128 <= status <= 159 ∧
    nth 1 message MUndefined = MNum note ∧ table !! note = Some channel ∧
    fst (transformMidiSrc table deltaTime message)
    = [MNum (bitOr (bitAnd status 240) (channel - 1)); MNum note;
       nth 2 message MUndefined].
Proof.
  destruct (nth 0 message MUndefined) as [|status] eqn:Hs.
  { left. now apply transformMidiSrc_short. }
  destruct (ownChannel table (nth 1 message MUndefined)) as [channel|] eqn:Hn.
  2:{ left. now apply transformMidiSrc_unmapped. }
  destruct (nth 1 message MUndefined) as [|note] eqn:Hnote; [discriminate|].
  cbn [ownChannel] in Hn.
  destruct (decide (128 <= status <= 159)) as [Hrange|Hrange].
  - right. exists status, note, channel.
    split; [reflexivity|]. split; [exact Hrange|].
    split; [reflexivity|]. split; [exact Hn|].
    unfold transformMidiSrc. rewrite Hs, Hnote.
    cbn [geNum leNum strictEqNum numOf ownChannel]. rewrite Hn.
    repeat match goal with
           | |- context [?a <=? ?b] => destruct (Z.leb_spec a b)
           end; cbn [andb orb]; try (exfalso; lia); rewrite ?orb_true_r;
      reflexivity.
  - left. unfold transformMidiSrc. rewrite Hs.
    cbn [geNum leNum strictEqNum numOf ownChannel].
    repeat match goal with
           | |- context [?a <=? ?b] => destruct (Z.leb_spec a b)
           end; cbn [andb orb]; try (exfalso; lia); reflexivity.
Qed.

Lemma newStatus_range status channel :
  128 <= status <= 159 → 1 <= channel <= 16 →
  128 <= bitOr (bitAnd status 240) (channel - 1) <= 159 ∧
  Z.land (bitOr (bitAnd status 240) (channel - 1)) 15 = channel - 1.
Proof.
  intros Hs Hc. rewrite newStatus_arith by lia.
  rewrite (Z.mod_small status 256) by lia.
  pose proof (Z.mod_pos_bound status 16 ltac:(lia)) as Hm.
  pose proof (Z.div_mod status 16 ltac:(lia)) as Hd.
  assert (Hq : status / 16 = 8 ∨ status / 16 = 9).
  { assert (8 <= status / 16 < 10); [|lia].
    split; [apply Z.div_le_lower_bound | apply Z.div_lt_upper_bound]; lia. }
  split; [lia|].
  change 15 with (Z.ones 4). rewrite Z.land_ones by lia.
  change (2 ^ 4) with 16.
  replace (status - status mod 16 + (channel - 1))
    with ((channel - 1) + (status / 16) * 16) by lia.
  rewrite Z.mod_add by lia. apply Z.mod_small. lia.
Qed.

Lemma newStatus_again status channel :
  128 <= status <= 159 → 1 <= channel <= 16 →
  bitOr (bitAnd (bitOr (bitAnd status 240) (channel - 1)) 240) (channel - 1)
  = bitOr (bitAnd status 240) (channel - 1).
Proof.
  intros Hs Hc.
  destruct (newStatus_range status channel Hs Hc) as [Hr _].
  rewrite (newStatus_plain (bitOr _ _)) by lia.
  rewrite newStatus_high_nibble by lia.
  symmetry. apply newStatus_plain; lia.
Qed.

(** X7. Whatever the table and the message, [transformMidiSrc] returns
    either the very message it received, or, for a Note On or Note Off whose
    note has an entry, a three-element message with the rewritten status,
    the same note and the same velocity: note and velocity are never
    altered, and a rerouted message is cut or padded to three elements. *)
Theorem X7_only_the_status_changes (T : Type) (table : gmap Z Z)
  (deltaTime : T) (message : list MidiValue) :
  fst (transformMidiSrc table deltaTime message) = message ∨
  ∃ status note channel,
    nth 0 message MUndefined = MNum status ∧ splittable status ∧
    nth 1 message MUndefined = MNum note ∧ table !! note = Some channel ∧
    fst (transformMidiSrc table deltaTime message)
    = [MNum (bitOr (bitAnd status 240) (channel - 1)); MNum note;
       nth 2 message MUndefined].
Proof. apply transformMidiSrc_cases. Qed.

(** X8. The velocity plays no part in the decision: changing the velocity
    of a three-element message changes nothing in the result but the
    velocity, so a Note On of velocity zero is rerouted like any Note On. *)
Theorem X8_velocity_is_carried_through (T : Type) (table : gmap Z Z)
  (deltaTime : T) (status note velocity velocity' : MidiValue) :
  fst (transformMidiSrc table deltaTime [status; note; velocity'])
  = <[2%nat := velocity']>
      (fst (transformMidiSrc table deltaTime [status; note; velocity])).
Proof.
  destruct status as [|s]; [reflexivity|].
  destruct note as [|n].
  { rewrite !transformMidiSrc_unmapped by reflexivity. reflexivity. }
  destruct (table !! n) as [c|] eqn:Hn.
  2:{ rewrite !transformMidiSrc_unmapped by exact Hn. reflexivity. }
  destruct (decide (128 <= s <= 159)) as [Hs|Hs].
  - rewrite !(transformMidiSrc_reroute _ _ _ _ _ _ Hs Hn). reflexivity.
  - rewrite !transformMidiSrc_passthrough by exact Hs. reflexivity.
Qed.

(** X9. With a table of MIDI channels, transforming twice is transforming
    once: the rewritten message is still a Note On or Note Off of the same
    note and is sent to the same channel again. *)
Theorem X9_transform_idempotent (T : Type) (table : gmap Z Z)
  (deltaTime : T) (message : list MidiValue) :
  channelsInRange table →
  fst (transformMidiSrc table deltaTime
         (fst (transformMidiSrc table deltaTime message)))
  = fst (transformMidiSrc table deltaTime message).
Proof.
  intros Htable.
  destruct (transformMidiSrc_cases table deltaTime message)
    as [Hsame|(status & note & channel & _ & Hs & _ & Hn & Hout)].
  - rewrite Hsame. exact Hsame.
  - pose proof (Htable _ _ Hn) as Hc.
    destruct (newStatus_range status channel Hs Hc) as [Hr _].
    rewrite Hout, (transformMidiSrc_reroute _ _ _ _ _ _ Hr Hn).
    rewrite newStatus_again by assumption. reflexivity.
Qed.

Lemma X9_transform_idempotent_witness :
  channelsInRange ({[60 := 3]} : gmap Z Z) ∧
  fst (transformMidiSrc ({[60 := 3]} : gmap Z Z) tt
         (fst (transformMidiSrc ({[60 := 3]} : gmap Z Z) tt
                 [MNum 144; MNum 60; MNum 100; MNum 7])))
  = fst (transformMidiSrc ({[60 := 3]} : gmap Z Z) tt
           [MNum 144; MNum 60; MNum 100; MNum 7]).
Proof.
  assert (H : channelsInRange ({[60 := 3]} : gmap Z Z)).
  { intros n c Hn. apply lookup_singleton_Some in Hn as [_ <-]. lia. }
  split; [exact H|].
  exact (X9_transform_idempotent unit _ tt _ H).
Defined.

(** X10. The channel can be read back from a rerouted message: the low
    nibble of the returned status, plus one, is the channel the table gives
    for the note, and the status is still that of a Note On or Note Off. *)
Theorem X10_channel_read_back (T : Type) (table : gmap Z Z) (deltaTime : T)
  (status note channel : Z) (rest : list MidiValue) :
  splittable status → table !! note = Some channel → 1 <= channel <= 16 →
  ∃ status' rest',
    fst (transformMidiSrc table deltaTime (MNum status :: MNum note :: rest))
    = MNum status' :: rest' ∧
    Z.land status' 15 + 1 = channel ∧ splittable status'.
Proof.
  intros Hs Hn Hc. unfold splittable in *.
  rewrite (transformMidiSrc_reroute _ _ _ _ _ _ Hs Hn).
  destruct (newStatus_range status channel Hs Hc) as [Hr Hlow].
  do 2 eexists. split; [reflexivity|]. split; [lia | exact Hr].
Qed.

Lemma X10_channel_read_back_witness :
  ∃ status' rest',
    fst (transformMidiSrc ({[60 := 16]} : gmap Z Z) tt
           (MNum 159 :: MNum 60 :: [MNum 100]))
    = MNum status' :: rest' ∧
    Z.land status' 15 + 1 = 16 ∧ splittable status'.
Proof.
  apply (X10_channel_read_back unit {[60 := 16]} tt 159 60 16 [MNum 100]).
  - unfold splittable. lia.
  - reflexivity.
  - lia.
Defined.

(** X11. A configuration without split definitions compiles to the empty
    table, with one warning, and with the empty table every message,
    whatever its kind, is returned as it was received. *)
Theorem X11_no_definitions_no_rerouting (inputData : InputData) :
  truthy (splitTable inputData) = false →
  buildSplitTable (splitDefinitionsOf inputData)
  = (Normal ∅, [mkDiag warn MsgInvalidSplitDefinitions None]) ∧
  ∀ (T : Type) (deltaTime : T) (message : list MidiValue),
    fst (transformMidiSrc ∅ deltaTime message) = message.
Proof.
  intros Hfalsy. split.
  - unfold splitDefinitionsOf. rewrite Hfalsy. reflexivity.
  - intros T deltaTime message. apply transformMidiSrc_unmapped.
    destruct (nth 1 message MUndefined); [reflexivity | apply lookup_empty].
Qed.

Lemma X11_no_definitions_no_rerouting_witness :
  buildSplitTable (splitDefinitionsOf (mkInputData "X" JUndefined None false))
  = (Normal ∅, [mkDiag warn MsgInvalidSplitDefinitions None]) ∧
  ∀ (T : Type) (deltaTime : T) (message : list MidiValue),
    fst (transformMidiSrc ∅ deltaTime message) = message.
Proof.
  apply (X11_no_definitions_no_rerouting (mkInputData "X" JUndefined None false)).
  reflexivity.
Defined.


(** ** The wildcard matcher and the admission of ports *)

Lemma lineMatches_literal pattern candidate :
  literal pattern = true →
  lineMatches pattern candidate = String.eqb pattern candidate.
Proof.
  revert candidate. induction pattern as [|p pattern IH]; intros candidate Hlit.
  - destruct candidate; reflexivity.
  - cbn [literal] in Hlit.
    apply andb_prop in Hlit as [[Hq Hs]%andb_prop Hlit].
    apply negb_true_iff in Hq, Hs.
    cbn [lineMatches]. rewrite Hq, Hs.
    destruct candidate as [|c candidate]; [reflexivity|].
    rewrite (IH _ Hlit). reflexivity.
Qed.

Lemma lineMatches_star candidate :
  lineMatches "*" candidate = singleLine candidate.
Proof.
  induction candidate as [|c candidate IH]; [reflexivity|].
  cbn [singleLine]. rewrite <- IH. cbn [lineMatches Ascii.eqb Bool.eqb].
  cbn. apply orb_false_r.
Qed.

Lemma lineMatches_prefix pattern candidate :
  literal pattern = true →
  lineMatches (pattern +:+ "*") candidate = true ↔
  ∃ rest, candidate = pattern +:+ rest ∧ singleLine rest = true.
Proof.
  revert candidate. induction pattern as [|p pattern IH]; intros candidate Hlit.
  - change (EmptyString +:+ "*") with "*". rewrite lineMatches_star. split.
    + intros Hline. exists candidate. split; [reflexivity | exact Hline].
    + intros (rest & -> & Hline). exact Hline.
  - cbn [literal] in Hlit.
    apply andb_prop in Hlit as [[Hq Hs]%andb_prop Hlit].
    apply negb_true_iff in Hq, Hs.
    change (String p pattern +:+ "*") with (String p (pattern +:+ "*")).
    cbn [lineMatches]. rewrite Hq, Hs.
    destruct candidate as [|c candidate].
    + split; [discriminate|]. intros (rest & Heq & _). discriminate Heq.
    + rewrite andb_true_iff, (IH candidate Hlit). split.
      * intros [Hc%Ascii.eqb_eq (rest & -> & Hline)]. subst c.
        exists rest. split; [reflexivity | exact Hline].
      * intros (rest & Heq & Hline).
        change (String p pattern +:+ rest) with (String p (pattern +:+ rest)) in Heq.
        injection Heq as -> ->. split; [apply Ascii.eqb_refl|].
        exists rest. split; [reflexivity | exact Hline].
Qed.

(** X12. [wildcardToRegex] never throws: the text it builds is always a
    well-formed regular expression; and on a candidate without line
    terminators the result decides the wildcard relation: [?] one
    character, [*] any number of characters, anything else itself, over
    the whole candidate. *)
Theorem X12_matcher_total_and_exact (pattern : string) :
  (∃ regex, wildcardToRegex pattern = Normal regex) ∧
  ∀ candidate,
    singleLine candidate = true →
    wildcardMatches pattern candidate = Normal (specMatches pattern candidate).
Proof.
  split.
  - eexists. apply wildcardToRegex_compiles.
  - intros candidate Hline.
    rewrite wildcardMatches_closed, lineMatches_singleLine by assumption.
    reflexivity.
Qed.

Lemma X12_matcher_total_and_exact_witness :
  (∃ regex, wildcardToRegex "KeyLab Essential ?? MIDI In" = Normal regex) ∧
  wildcardMatches "KeyLab Essential ?? MIDI In" "KeyLab Essential 61 MIDI In"
  = Normal (specMatches "KeyLab Essential ?? MIDI In"
              "KeyLab Essential 61 MIDI In").
Proof.
  destruct (X12_matcher_total_and_exact "KeyLab Essential ?? MIDI In")
    as [Htotal Hexact].
  split; [exact Htotal|]. apply Hexact. reflexivity.
Defined.

(** X13. A pattern without [?] and [*] matches one string only, itself:
    the characters that are special in regular expressions are escaped and
    stand for themselves. *)
Theorem X13_literal_pattern_matches_itself_only (pattern candidate : string) :
  literal pattern = true →
  wildcardMatches pattern candidate = Normal (String.eqb pattern candidate).
Proof.
  intros Hlit. rewrite wildcardMatches_closed, lineMatches_literal by assumption.
  reflexivity.
Qed.

Lemma X13_literal_pattern_matches_itself_only_witness :
  literal "Out (1) [a.b]+$" = true ∧
  wildcardMatches "Out (1) [a.b]+$" "Out (1) [aXb]+$"
  = Normal (String.eqb "Out (1) [a.b]+$" "Out (1) [aXb]+$").
Proof.
  assert (H : literal "Out (1) [a.b]+$" = true) by reflexivity.
  split; [exact H|].
  exact (X13_literal_pattern_matches_itself_only _ _ H).
Defined.

(** X14. A literal text followed by [*] matches exactly the candidates
    that start with the text and go on without line terminator. *)
Theorem X14_prefix_pattern (pattern candidate : string) :
  literal pattern = true →
  wildcardMatches (pattern +:+ "*") candidate = Normal true ↔
  ∃ rest, candidate = pattern +:+ rest ∧ singleLine rest = true.
Proof.
  intros Hlit. rewrite wildcardMatches_closed.
  rewrite <- (lineMatches_prefix pattern candidate Hlit).
  split; [intros [= ->]; reflexivity | intros ->; reflexivity].
Qed.

Lemma X14_prefix_pattern_witness :
  literal "MPK Mini Mk3 MIDI" = true ∧
  (wildcardMatches ("MPK Mini Mk3 MIDI" +:+ "*") "MPK Mini Mk3 MIDI 2"
   = Normal true ↔
   ∃ rest, "MPK Mini Mk3 MIDI 2" = "MPK Mini Mk3 MIDI" +:+ rest ∧
           singleLine rest = true).
Proof.
  assert (H : literal "MPK Mini Mk3 MIDI" = true) by reflexivity.
  split; [exact H|].
  exact (X14_prefix_pattern "MPK Mini Mk3 MIDI" "MPK Mini Mk3 MIDI 2" H).
Defined.

(** X15. [isExcluded] never throws and is the disjunction of its patterns:
    a port is excluded exactly when some pattern of the list matches its
    name, so neither the order of the patterns nor their repetition
    matters. *)
Theorem X15_excluded_iff_some_pattern_matches (portName : string)
  (exclusions : list string) :
  ∃ b,
    isExcluded portName exclusions = Normal b ∧
    (b = true ↔
     ∃ pattern, pattern ∈ exclusions ∧
                wildcardMatches pattern portName = Normal true) ∧
    ∀ exclusions',
      (∀ pattern, pattern ∈ exclusions ↔ pattern ∈ exclusions') →
      isExcluded portName exclusions' = Normal b.
Proof.
  assert (Hiff : ∀ l,
            existsb (λ pattern, lineMatches pattern portName) l = true ↔
            ∃ pattern, pattern ∈ l ∧
                       wildcardMatches pattern portName = Normal true).
  { intros l. rewrite existsb_exists. split.
    - intros (p & Hin & Hm). exists p. split; [now apply list_elem_of_In|].
      rewrite wildcardMatches_closed, Hm. reflexivity.
    - intros (p & Hin & Hm). exists p. split; [now apply list_elem_of_In|].
      rewrite wildcardMatches_closed in Hm. now injection Hm. }
  eexists. split; [apply isExcluded_closed|]. split; [apply Hiff|].
  intros exclusions' Hsame. rewrite isExcluded_closed. f_equal.
  apply eq_true_iff_eq. rewrite !Hiff.
  split; intros (p & Hin & Hm); exists p; (split; [apply Hsame, Hin | exact Hm]).
Qed.

(** X16. A port whose exact name is listed among the exclusions is
    excluded, whatever characters the name contains: the exclusion by plain
    name of the earlier revisions still holds with wildcards. *)
Theorem X16_listed_name_is_excluded (portName : string)
  (exclusions : list string) :
  portName ∈ exclusions → isExcluded portName exclusions = Normal true.
Proof.
  intros Hin. rewrite isExcluded_closed. f_equal.
  apply existsb_exists. exists portName.
  split; [now apply list_elem_of_In | apply lineMatches_self].
Qed.

Lemma X16_listed_name_is_excluded_witness :
  isExcluded "Oxygen Pro 49 (MIDI In)?"
    ["MPK*"; "Oxygen Pro 49 (MIDI In)?"] = Normal true.
Proof.
  apply X16_listed_name_is_excluded.
  apply list_elem_of_further, list_elem_of_here.
Defined.

(** X17. [setupMidiInput] leaves the module variables as they are and does
    one of three things: for an excluded port it returns [null] and touches
    nothing; otherwise it opens the port and subscribes to it, once each,
    and returns the handle; or, if opening raises, it ends by that error
    without subscribing. *)
Theorem X17_setupMidiInput_outcomes (w : World) (portIndex out : nat)
  (exclusions : list string) (s : Vars) :
  (isExcluded (getInputPortName w portIndex) exclusions = Normal true ∧
   setupMidiInput w portIndex out exclusions s = (Normal None, s, [])) ∨
  (isExcluded (getInputPortName w portIndex) exclusions = Normal false ∧
   openInputFails w portIndex = false ∧
   setupMidiInput w portIndex out exclusions s
   = (Normal (Some portIndex), s,
      [EvOpenInput portIndex; EvSubscribe portIndex])) ∨
  (isExcluded (getInputPortName w portIndex) exclusions = Normal false ∧
   openInputFails w portIndex = true ∧
   setupMidiInput w portIndex out exclusions s = (Throw NativeError, s, [])).
Proof.
  rewrite setupMidiInput_closed, isExcluded_closed.
  destruct (existsb _ exclusions); [left; split; reflexivity|].
  destruct (openInputFails w portIndex);
    [right; right | right; left]; repeat split; reflexivity.
Qed.

(** ** The engine, run by run *)

(** Unfold the operations of the engine's monad in the goal. *)
Ltac run_engine :=
  cbv [mbind M_bind bind mret M_ret ret emit emitAll monitor throw processExit
       liftCompletion getVars putVars setOutput setInputs setMidiTransformer
       setCleanupCalled]; cbn [app].

(** Every run of [execute], by what stops it: the compilation of the split
    table, the search of the output, the opening of the output, or the loop
    over the input ports. *)
Lemma execute_outcome (w : World) (inputData : InputData) (s : Vars) :
  ∃ pre,
    forallb isSilent pre = true ∧
    match buildSplitTable (splitDefinitionsOf inputData) with
    | (Normal table, _) =>
        let s1 := mkVars (Some table) (inputInstances s) (output s)
                    (cleanupCalled s) in
        match lastMatch (outputPorts w) 0 (virtualOutputName inputData) None with
        | None => execute w inputData s = (Exit (Some 2), s1, pre)
        | Some idx =>
            if openOutputFails w idx
            then execute w inputData s = (Throw NativeError, s1, pre)
            else
              let s2 := mkVars (Some table) (inputInstances s) (Some idx)
                          (cleanupCalled s) in
              ∃ c2 evs2 mid tail,
                attachInputs w (List.length (inputPorts w)) 0 idx
                  (virtualOutputName inputData :: exclusionsOf inputData) [] s2
                = (c2, s2, evs2) ∧
                forallb isSilent mid = true ∧ forallb isSilent tail = true ∧
                execute w inputData s
                = (match c2 with
                   | Normal [] => Normal 1
                   | Normal (_ :: _) => Normal 3
                   | Throw e => Throw e
                   | Exit c => Exit c
                   end,
                   match c2 with
                   | Normal (i :: l) =>
                       mkVars (Some table) (i :: l) (Some idx) (cleanupCalled s)
                   | _ => s2
                   end,
                   pre ++ EvOpenOutput idx :: mid ++ evs2 ++ tail)
        end
    | (Throw e, _) => execute w inputData s = (Throw e, s, pre)
    | (Exit c, _) => execute w inputData s = (Exit c, s, pre)
    end.
Proof.
  unfold execute.
  destruct (buildSplitTable (splitDefinitionsOf inputData)) as [built diags].
  assert (Hdiags : forallb isSilent (EvDiag <$> diags) = true).
  { induction diags; [reflexivity | assumption]. }
  assert (Hdebug : ∃ evs0,
             (if debugFlag inputData then emit EvSetDebugMode else mret ()) s
             = (Normal tt, s, evs0) ∧ forallb isSilent evs0 = true).
  { destruct (debugFlag inputData); eexists; split; reflexivity. }
  destruct Hdebug as (evs0 & Hrun0 & Hsil0).
  run_engine. unfold emit, mret, M_ret, ret in Hrun0. rewrite Hrun0. clear Hrun0.
  destruct built as [table|e|c].
  2,3: eexists; split; [|reflexivity];
       rewrite ?forallb_app, Hsil0, Hdiags; reflexivity.
  match goal with
  | |- context [searchOutput ?names ?i ?v ?found ?st] =>
      destruct (searchOutput_closed names i v found st) as (evs1 & -> & Hsil1)
  end.
  destruct (lastMatch (outputPorts w) 0 (virtualOutputName inputData) None)
    as [idx|].
  - destruct (openOutputFails w idx).
    + eexists. split; [|reflexivity].
      rewrite !forallb_app, Hsil0, Hdiags. cbn [forallb isSilent andb].
      rewrite forallb_app, Hsil1. reflexivity.
    + cbn [transformMidi inputInstances output cleanupCalled].
      match goal with
      | |- context [attachInputs ?w' ?r ?i ?o ?ex ?ins ?st] =>
          destruct (attachInputs_events w' r i o ex ins st)
            as (c2 & evs2 & -> & _ & _)
      end.
      exists (evs0 ++ (EvDiag <$> diags) ++
              EvDiag (mkDiag debug (MsgFoundOutputs (List.length (outputPorts w))) None)
              :: EvDiag (mkDiag debug (MsgSearching (virtualOutputName inputData)) None)
              :: evs1).
      split.
      { rewrite !forallb_app, Hsil0, Hdiags. cbn [forallb isSilent andb].
        exact Hsil1. }
      exists c2, evs2,
        [EvDiag (mkDiag info (MsgConnected (virtualOutputName inputData)) None);
         EvDiag (mkDiag debug (MsgFoundInputs (List.length (inputPorts w))) None)].
      destruct c2 as [[|input inputs]|e|c].
      * exists [EvDiag (mkDiag warn MsgNotListening None)].
        split; [reflexivity|]. split; [reflexivity|]. split; [reflexivity|].
        rewrite <- !app_assoc. reflexivity.
      * exists []. split; [reflexivity|]. split; [reflexivity|].
        split; [reflexivity|]. rewrite <- !app_assoc. reflexivity.
      * exists []. split; [reflexivity|]. split; [reflexivity|].
        split; [reflexivity|]. rewrite <- !app_assoc, app_nil_r. reflexivity.
      * exists []. split; [reflexivity|]. split; [reflexivity|].
        split; [reflexivity|]. rewrite <- !app_assoc, app_nil_r. reflexivity.
  - eexists. split; [|reflexivity].
    rewrite !forallb_app, Hsil0, Hdiags. cbn [forallb isSilent andb].
    rewrite forallb_app, Hsil1. reflexivity.
Qed.

Lemma lastMatch_found names i vOutPortName found :
  vOutPortName ∈ names →
  ∃ j, lastMatch names i vOutPortName found = Some j.
Proof.
  revert i found. induction names as [|name rest IH]; intros i found Hin.
  - now apply elem_of_nil in Hin.
  - cbn [lastMatch]. destruct (decide (vOutPortName ∈ rest)) as [Hrest|Hrest].
    + apply IH, Hrest.
    + apply elem_of_cons in Hin as [<-|Hin]; [|contradiction].
      rewrite String.eqb_refl. exists i.
      clear IH. revert Hrest. generalize (S i) as k.
      induction rest as [|name rest IH]; intros k Hrest; [reflexivity|].
      cbn [lastMatch].
      destruct (String.eqb_spec name vOutPortName) as [->|_].
      * exfalso. apply Hrest, list_elem_of_here.
      * apply IH. intros Hin. apply Hrest. now apply list_elem_of_further.
Qed.

Lemma lastMatch_ge names i vOutPortName found j :
  vOutPortName ∈ names →
  lastMatch names i vOutPortName found = Some j → (i <= j)%nat.
Proof.
  revert i found. induction names as [|name rest IH]; intros i found Hin Hlast.
  - now apply elem_of_nil in Hin.
  - cbn [lastMatch] in Hlast.
    destruct (decide (vOutPortName ∈ rest)) as [Hrest|Hrest].
    + specialize (IH _ _ Hrest Hlast). lia.
    + apply elem_of_cons in Hin as [Heq|Hin]; [subst name|contradiction].
      rewrite String.eqb_refl in Hlast.
      destruct (lastMatch_named _ _ _ _ _ Hlast) as [Hfound|[Hle _]]; [|lia].
      injection Hfound as Hfound. lia.
Qed.

(** No port after the one found has the configured name. *)
Lemma lastMatch_is_last names i vOutPortName found j k :
  lastMatch names i vOutPortName found = Some j →
  (i <= j)%nat → (j < k)%nat → names !! (k - i)%nat ≠ Some vOutPortName.
Proof.
  revert i found. induction names as [|name rest IH]; intros i found Hlast Hij Hjk.
  - rewrite lookup_nil. discriminate.
  - cbn [lastMatch] in Hlast.
    replace (k - i)%nat with (S (k - S i)) by lia. cbn [lookup list_lookup].
    destruct (decide (S i <= j)%nat) as [Hle|Hgt].
    + eapply IH; eauto.
    + intros Hk.
      assert (Hin : vOutPortName ∈ rest) by (eapply list_elem_of_lookup_2, Hk).
      pose proof (lastMatch_ge _ _ _ _ _ Hin Hlast). lia.
Qed.

(** The loop over the input ports, port by port: it opens the ports that no
    exclusion matches, in enumeration order, subscribes to each port it
    opens, and stops only when a port fails to open. *)
Lemma attachInputs_trace w remaining i out exclusions instances s c s' evs :
  attachInputs w remaining i out exclusions instances s = (c, s', evs) →
  subscribedInputs evs = openedInputs evs ∧
  forallb isSetUpEvent evs = true ∧
  (∀ j, EvOpenOutput j ∉ evs) ∧
  match c with
  | Normal l =>
      l = instances ++ openedInputs evs ∧
      openedInputs evs
      = List.filter (λ j, negb (excludedPort w exclusions j)) (seq i remaining)
  | Throw e =>
      e = NativeError ∧
      ∃ j rest,
        List.filter (λ j, negb (excludedPort w exclusions j)) (seq i remaining)
        = openedInputs evs ++ j :: rest ∧
        openInputFails w j = true
  | Exit _ => False
  end.
Proof.
  revert i instances c s' evs.
  induction remaining as [|remaining IH]; intros i instances c s' evs.
  - intros [= <- <- <-]. repeat split.
    + intros j Hin. now apply elem_of_nil in Hin.
    + symmetry. apply app_nil_r.
  - cbn [attachInputs seq List.filter]. run_engine.
    rewrite setupMidiInput_closed.
    change (existsb (λ pattern, lineMatches pattern (getInputPortName w i))
              exclusions) with (excludedPort w exclusions i).
    destruct (excludedPort w exclusions i) eqn:Hex; cbn [negb].
    + destruct (attachInputs w remaining (S i) out exclusions instances s)
        as [[c0 s0] evs0] eqn:Hrec.
      intros [= <- <- <-]. cbn [app].
      destruct (IH _ _ _ _ _ Hrec) as (Hsub & Hset & Hout & Hc).
      split; [|split; [|split]].
      * exact Hsub.
      * exact Hset.
      * intros j [Hj|Hj]%elem_of_cons; [discriminate Hj | exact (Hout j Hj)].
      * exact Hc.
    + destruct (openInputFails w i) eqn:Hfail.
      * intros [= <- <- <-]. repeat split.
        -- intros j Hin. now apply elem_of_nil in Hin.
        -- eexists i, _. split; [reflexivity | exact Hfail].
      * destruct (attachInputs w remaining (S i) out exclusions
                    (instances ++ [i]) s) as [[c0 s0] evs0] eqn:Hrec.
        intros [= <- <- <-]. cbn [app].
        destruct (IH _ _ _ _ _ Hrec) as (Hsub & Hset & Hout & Hc).
        split; [|split; [|split]].
        -- unfold subscribedInputs, openedInputs in *. cbn [omap list_omap].
           f_equal. exact Hsub.
        -- exact Hset.
        -- intros j Hj. repeat (apply elem_of_cons in Hj as [Hj|Hj];
                                 [discriminate Hj|]).
           exact (Hout j Hj).
        -- unfold openedInputs in *. cbn [omap list_omap].
           destruct c0 as [l|e|code].
           ++ destruct Hc as [-> Hc]. rewrite <- app_assoc. cbn [app].
              split; [reflexivity | f_equal; exact Hc].
           ++ destruct Hc as (-> & j & rest & Hc & Hj). split; [reflexivity|].
              exists j, rest. split; [cbn [app]; f_equal; exact Hc | exact Hj].
           ++ exact Hc.
Qed.

(** The compilation of the split table ends with a table or by a
    [TypeError]. *)
Lemma buildSplitTable_outcome v :
  (∃ t log, buildSplitTable v = (Normal t, log)) ∨
  (∃ log, buildSplitTable v = (Throw TypeError, log)).
Proof.
  destruct v as [| | | | |[|d ds]|]; try (left; do 2 eexists; reflexivity).
  destruct (forEachDefinition_outcome (d :: ds) 0%nat ∅ []) as [[_ H]|[_ H]];
    [left | right]; exact H.
Qed.

Lemma silent_setUp evs :
  forallb isSilent evs = true → forallb isSetUpEvent evs = true.
Proof.
  induction evs as [|e evs IH]; [reflexivity|].
  cbn [forallb]. intros [He Hevs]%andb_prop.
  rewrite (IH Hevs). destruct e; try discriminate He; reflexivity.
Qed.

Lemma silent_no_port evs e :
  forallb isSilent evs = true → e ∈ evs → isSilent e = true.
Proof.
  intros Hevs Hin. rewrite forallb_forall in Hevs.
  apply Hevs, list_elem_of_In, Hin.
Qed.

Lemma subscribedInputs_app evs1 evs2 :
  subscribedInputs (evs1 ++ evs2) = subscribedInputs evs1 ++ subscribedInputs evs2.
Proof. apply omap_app. Qed.

Lemma subscribedInputs_silent evs :
  forallb isSilent evs = true → subscribedInputs evs = [].
Proof.
  induction evs as [|e evs IH]; [reflexivity|].
  cbn [forallb]. intros [He Hevs]%andb_prop.
  destruct e; try discriminate He; exact (IH Hevs).
Qed.

(** Every run of [execute], read backwards from its result.  Either the
    split table did not compile, or the output was not found, or the
    output failed to open, or the output was opened and the loop over the
    input ports ran: then the ports opened are the first of the admitted
    ports, all of them unless one failed to open. *)
Lemma execute_inv w inputData s c s' evs :
  execute w inputData s = (c, s', evs) →
  (c = Throw TypeError ∧ s' = s ∧ forallb isSilent evs = true ∧
   ∃ log, buildSplitTable (splitDefinitionsOf inputData) = (Throw TypeError, log))
  ∨
  ∃ table log,
    buildSplitTable (splitDefinitionsOf inputData) = (Normal table, log) ∧
    transformMidi s' = Some table ∧ cleanupCalled s' = cleanupCalled s ∧
    ((lastMatch (outputPorts w) 0 (virtualOutputName inputData) None = None ∧
      c = Exit (Some 2) ∧ forallb isSilent evs = true ∧
      inputInstances s' = inputInstances s ∧ output s' = output s)
     ∨
     ∃ idx,
       lastMatch (outputPorts w) 0 (virtualOutputName inputData) None = Some idx ∧
       ((openOutputFails w idx = true ∧
         c = Throw NativeError ∧ forallb isSilent evs = true ∧
         inputInstances s' = inputInstances s ∧ output s' = output s)
        ∨
        (openOutputFails w idx = false ∧ output s' = Some idx ∧
         ∃ pre post,
           evs = pre ++ EvOpenOutput idx :: post ∧
           forallb isSilent pre = true ∧
           forallb isSetUpEvent post = true ∧
           (∀ j, EvOpenOutput j ∉ post) ∧
           subscribedInputs post = openedInputs post ∧
           ((c = Normal 1 ∧ inputInstances s' = inputInstances s ∧
             openedInputs post = [] ∧
             admittedPorts w (virtualOutputName inputData :: exclusionsOf inputData)
             = [])
            ∨
            (c = Normal 3 ∧ inputInstances s' = openedInputs post ∧
             openedInputs post ≠ [] ∧
             admittedPorts w (virtualOutputName inputData :: exclusionsOf inputData)
             = openedInputs post)
            ∨
            (c = Throw NativeError ∧ inputInstances s' = inputInstances s ∧
             ∃ j rest,
               admittedPorts w
                 (virtualOutputName inputData :: exclusionsOf inputData)
               = openedInputs post ++ j :: rest ∧
               openInputFails w j = true))))).
Proof.
  intros Hexec.
  destruct (execute_outcome w inputData s) as (pre & Hpre & Hrun).
  destruct (buildSplitTable_outcome (splitDefinitionsOf inputData))
    as [(table & log & Hbuild)|(log & Hbuild)]; rewrite Hbuild in Hrun.
  2: { left. rewrite Hrun in Hexec. injection Hexec as <- <- <-.
       repeat split; [exact Hpre | now exists log]. }
  right. exists table, log. split; [exact Hbuild|]. cbv zeta in Hrun.
  destruct (lastMatch (outputPorts w) 0 (virtualOutputName inputData) None)
    as [idx|].
  2: { rewrite Hrun in Hexec. injection Hexec as <- <- <-.
       split; [reflexivity|]. split; [reflexivity|]. left.
       repeat split. exact Hpre. }
  destruct (openOutputFails w idx) eqn:Hopen.
  { rewrite Hrun in Hexec. injection Hexec as <- <- <-.
    split; [reflexivity|]. split; [reflexivity|]. right. exists idx.
    split; [reflexivity|]. left. split; [exact Hopen|]. repeat split.
    exact Hpre. }
  destruct Hrun as (c2 & evs2 & mid & tail & Hattach & Hmid & Htail & Hrun).
  rewrite Hrun in Hexec. injection Hexec as <- <- <-.
  destruct (attachInputs_trace _ _ _ _ _ _ _ _ _ _ Hattach)
    as (Hsub & Hset & Hnoout & Hc2).
  assert (Hposts : forallb isSetUpEvent (mid ++ evs2 ++ tail) = true ∧
                   (∀ j, EvOpenOutput j ∉ mid ++ evs2 ++ tail) ∧
                   subscribedInputs (mid ++ evs2 ++ tail)
                   = openedInputs (mid ++ evs2 ++ tail) ∧
                   openedInputs (mid ++ evs2 ++ tail) = openedInputs evs2).
  { split; [|split; [|split]].
    - rewrite !forallb_app, Hset, (silent_setUp _ Hmid), (silent_setUp _ Htail).
      reflexivity.
    - intros j Hj. rewrite !elem_of_app in Hj. destruct Hj as [Hj|[Hj|Hj]].
      + discriminate (silent_no_port _ _ Hmid Hj).
      + exact (Hnoout j Hj).
      + discriminate (silent_no_port _ _ Htail Hj).
    - rewrite !subscribedInputs_app, !openedInputs_app, Hsub,
        (subscribedInputs_silent _ Hmid), (subscribedInputs_silent _ Htail),
        (openedInputs_silent _ Hmid), (openedInputs_silent _ Htail).
      reflexivity.
    - rewrite !openedInputs_app, (openedInputs_silent _ Hmid),
        (openedInputs_silent _ Htail), app_nil_r. reflexivity. }
  destruct Hposts as (Hset' & Hnoout' & Hsub' & Hopened).
  assert (Hvars : transformMidi
                    match c2 with
                    | Normal (i :: l) =>
                        mkVars (Some table) (i :: l) (Some idx) (cleanupCalled s)
                    | _ => mkVars (Some table) (inputInstances s) (Some idx)
                             (cleanupCalled s)
                    end = Some table ∧
                  cleanupCalled
                    match c2 with
                    | Normal (i :: l) =>
                        mkVars (Some table) (i :: l) (Some idx) (cleanupCalled s)
                    | _ => mkVars (Some table) (inputInstances s) (Some idx)
                             (cleanupCalled s)
                    end = cleanupCalled s ∧
                  output
                    match c2 with
                    | Normal (i :: l) =>
                        mkVars (Some table) (i :: l) (Some idx) (cleanupCalled s)
                    | _ => mkVars (Some table) (inputInstances s) (Some idx)
                             (cleanupCalled s)
                    end = Some idx).
  { destruct c2 as [[|i l]|e|code]; repeat split. }
  destruct Hvars as (Ht & Hcl & Hout).
  split; [exact Ht|]. split; [exact Hcl|]. right. exists idx.
  split; [reflexivity|]. right. split; [exact Hopen|]. split; [exact Hout|].
  exists pre, (mid ++ evs2 ++ tail).
  split; [reflexivity|]. split; [exact Hpre|]. split; [exact Hset'|].
  split; [exact Hnoout'|]. split; [exact Hsub'|].
  rewrite Hopened. unfold admittedPorts.
  destruct c2 as [[|i l]|e|code].
  - destruct Hc2 as [Hl Hadm]. cbn [app] in Hl. left.
    rewrite <- Hadm, <- Hl. repeat split.
  - destruct Hc2 as [Hl Hadm]. cbn [app] in Hl. right. left.
    rewrite <- Hadm, <- Hl. repeat split. discriminate.
  - destruct Hc2 as (-> & j & rest & Hadm & Hj). right. right.
    repeat split. exists j, rest. split; [exact Hadm | exact Hj].
  - destruct Hc2.
Qed.

Lemma openedInputs_after_output pre idx post :
  forallb isSilent pre = true →
  openedInputs (pre ++ EvOpenOutput idx :: post) = openedInputs post.
Proof.
  intros Hpre. rewrite openedInputs_app, (openedInputs_silent _ Hpre).
  reflexivity.
Qed.

Lemma admittedPorts_NoDup w exclusions : NoDup (admittedPorts w exclusions).
Proof.
  unfold admittedPorts.
  apply NoDup_ListNoDup, List.NoDup_filter, NoDup_ListNoDup, NoDup_seq.
Qed.

(** X18. [execute] returns 1 or 3 and nothing else.  It returns 3 exactly
    when it opened an input port, and then the module variable
    [inputInstances] holds the ports it opened, in order; when it returns
    1 the variable keeps its former value.  With 1 the check of
    [index.js] ends the process with code 1; with 3 it lets it run. *)
Theorem X18_return_value_and_exit (w : World) (inputData : InputData)
  (s s' : Vars) (code : Z) (evs : list Event) :
  execute w inputData s = (Normal code, s', evs) →
  (code = 1 ∨ code = 3) ∧
  (code = 3 ↔ openedInputs evs ≠ []) ∧
  (code = 3 → inputInstances s' = openedInputs evs) ∧
  (code = 1 → inputInstances s' = inputInstances s) ∧
  Index.afterRun code s'
  = (if code =? 3 then Normal tt else Exit (Some 1), s', []).
Proof.
  intros Hrun.
  destruct (execute_inv _ _ _ _ _ _ Hrun)
    as [(Hc & _)|(table & log & _ & _ & _ &
                  [(_ & Hc & _)|(idx & _ & [(_ & Hc & _)|(_ & _ & Hpost)])])];
    try discriminate Hc.
  destruct Hpost as (pre & post & -> & Hpre & _ & _ & _ & Hcases).
  rewrite (openedInputs_after_output _ _ _ Hpre).
  destruct Hcases as [(Hc & Hin & Hop & _)|[(Hc & Hin & Hop & _)|(Hc & _)]];
    try discriminate Hc; injection Hc as ->.
  - rewrite Hop. split; [now left|]. split; [split; [discriminate | congruence]|].
    split; [discriminate|]. split; [intros _; exact Hin | reflexivity].
  - split; [now right|]. split; [split; [intros _; exact Hop | reflexivity]|].
    split; [intros _; exact Hin|]. split; [discriminate | reflexivity].
Qed.

Lemma X18_return_value_and_exit_witness :
  (3 = 1 ∨ 3 = 3) ∧
  (3 = 3 ↔ openedInputs (snd (execute exampleWorld exampleData initialVars)) ≠ []) ∧
  (3 = 3 →
   inputInstances (snd (fst (execute exampleWorld exampleData initialVars)))
   = openedInputs (snd (execute exampleWorld exampleData initialVars))) ∧
  (3 = 1 →
   inputInstances (snd (fst (execute exampleWorld exampleData initialVars)))
   = inputInstances initialVars) ∧
  Index.afterRun 3 (snd (fst (execute exampleWorld exampleData initialVars)))
  = (if 3 =? 3 then Normal tt else Exit (Some 1),
     snd (fst (execute exampleWorld exampleData initialVars)), []).
Proof.
  apply (X18_return_value_and_exit exampleWorld exampleData initialVars).
  reflexivity.
Defined.

(** X19. [execute] ends the process itself in one case only: the split
    table compiled and no output port has the configured name.  The code is
    then 2, no port has been touched, and neither [inputInstances] nor
    [output] has changed. *)
Theorem X19_exits_only_when_output_missing (w : World)
  (inputData : InputData) (s s' : Vars) (code : option Z) (evs : list Event) :
  execute w inputData s = (Exit code, s', evs) →
  code = Some 2 ∧
  (virtualOutputName inputData ∉ outputPorts w) ∧
  (∃ table log,
     buildSplitTable (splitDefinitionsOf inputData) = (Normal table, log)) ∧
  forallb isSilent evs = true ∧
  inputInstances s' = inputInstances s ∧ output s' = output s.
Proof.
  intros Hrun.
  destruct (execute_inv _ _ _ _ _ _ Hrun)
    as [(Hc & _)|(table & log & Hbuild & _ & _ &
                  [(Hlast & Hc & Hsil & Hin & Hout)
                  |(idx & _ & [(_ & Hc & _)|(_ & _ & Hpost)])])];
    try discriminate Hc.
  - injection Hc as ->. split; [reflexivity|]. split.
    + intros Hname.
      destruct (lastMatch_found _ 0%nat _ None Hname) as (j & Hj).
      rewrite Hj in Hlast. discriminate Hlast.
    + split; [now exists table, log|]. repeat split; assumption.
  - destruct Hpost as (pre & post & _ & _ & _ & _ & _ & Hcases).
    destruct Hcases as [(Hc & _)|[(Hc & _)|(Hc & _)]]; discriminate Hc.
Qed.

Lemma X19_exits_only_when_output_missing_witness :
  Some 2 = Some 2 ∧
  (virtualOutputName exampleData ∉ outputPorts worldWithoutOutput) ∧
  (∃ table log,
     buildSplitTable (splitDefinitionsOf exampleData) = (Normal table, log)) ∧
  forallb isSilent (snd (execute worldWithoutOutput exampleData initialVars))
  = true ∧
  inputInstances (snd (fst (execute worldWithoutOutput exampleData initialVars)))
  = inputInstances initialVars ∧
  output (snd (fst (execute worldWithoutOutput exampleData initialVars)))
  = output initialVars.
Proof.
  apply (X19_exits_only_when_output_missing worldWithoutOutput exampleData
           initialVars).
  reflexivity.
Defined.



(** X21. Whatever the machine and the configuration, [execute] only opens
    and subscribes: it closes no port and sends no message.  It subscribes
    to exactly the input ports it opens, in the same order; it opens no
    input port twice; and every input port it opens exists on the machine
    and has a name that neither is the name of the virtual output nor
    matches an exclusion pattern. *)
Theorem X21_set_up_only_opens_and_subscribes (w : World)
  (inputData : InputData) (s : Vars) :
  forallb isSetUpEvent (snd (execute w inputData s)) = true ∧
  subscribedInputs (snd (execute w inputData s))
  = openedInputs (snd (execute w inputData s)) ∧
  NoDup (openedInputs (snd (execute w inputData s))) ∧
  ∀ i, i ∈ openedInputs (snd (execute w inputData s)) →
       (i < List.length (inputPorts w))%nat ∧
       getInputPortName w i ≠ virtualOutputName inputData ∧
       ∀ pattern, pattern ∈ exclusionsOf inputData →
                  lineMatches pattern (getInputPortName w i) = false.
Proof.
  destruct (execute w inputData s) as [[c s'] evs] eqn:Hrun. cbn [snd].
  assert (Hsilent : forallb isSilent evs = true →
            forallb isSetUpEvent evs = true ∧
            subscribedInputs evs = openedInputs evs ∧
            NoDup (openedInputs evs) ∧
            ∀ i, i ∈ openedInputs evs →
                 (i < List.length (inputPorts w))%nat ∧
                 getInputPortName w i ≠ virtualOutputName inputData ∧
                 ∀ pattern, pattern ∈ exclusionsOf inputData →
                            lineMatches pattern (getInputPortName w i) = false).
  { intros Hsil. rewrite (subscribedInputs_silent _ Hsil),
      (openedInputs_silent _ Hsil).
    split; [exact (silent_setUp _ Hsil)|]. split; [reflexivity|].
    split; [constructor|]. intros i Hi. now apply elem_of_nil in Hi. }
  destruct (execute_inv _ _ _ _ _ _ Hrun)
    as [(_ & _ & Hsil & _)|(table & log & _ & _ & _ &
                  [(_ & _ & Hsil & _)
                  |(idx & _ & [(_ & _ & Hsil & _)|(_ & _ & Hpost)])])];
    try exact (Hsilent Hsil).
  clear Hsilent.
  destruct Hpost as (pre & post & -> & Hpre & Hset & _ & Hsub & Hcases).
  assert (Hprefix : ∃ rest,
            admittedPorts w (virtualOutputName inputData :: exclusionsOf inputData)
            = openedInputs post ++ rest).
  { destruct Hcases as [(_ & _ & Hop & Hadm)|[(_ & _ & _ & Hadm)
                                             |(_ & _ & j & rest & Hadm & _)]].
    - exists []. rewrite Hadm, Hop. reflexivity.
    - exists []. rewrite Hadm, app_nil_r. reflexivity.
    - exists (j :: rest). exact Hadm. }
  destruct Hprefix as (rest & Hadm).
  rewrite (openedInputs_after_output _ _ _ Hpre).
  split; [|split; [|split]].
  - rewrite forallb_app, (silent_setUp _ Hpre). cbn [forallb isSetUpEvent andb].
    exact Hset.
  - rewrite subscribedInputs_app, (subscribedInputs_silent _ Hpre). exact Hsub.
  - pose proof (admittedPorts_NoDup w
                  (virtualOutputName inputData :: exclusionsOf inputData)) as Hnd.
    rewrite Hadm in Hnd. now apply NoDup_app in Hnd as (Hnd & _).
  - intros i Hi.
    assert (Hin : i ∈ admittedPorts w
                        (virtualOutputName inputData :: exclusionsOf inputData)).
    { rewrite Hadm. apply elem_of_app. now left. }
    unfold admittedPorts in Hin.
    apply list_elem_of_In, List.filter_In in Hin as [Hseq Hex].
    apply List.in_seq in Hseq. split; [lia|].
    apply negb_true_iff in Hex. unfold excludedPort in Hex.
    cbn [existsb] in Hex. apply orb_false_elim in Hex as [Hself Hex].
    split.
    + intros Heq. rewrite <- Heq, lineMatches_self in Hself. discriminate Hself.
    + intros pattern Hpattern.
      destruct (lineMatches pattern (getInputPortName w i)) eqn:Hm; [|reflexivity].
      rewrite <- Hex. symmetry. apply existsb_exists.
      exists pattern. split; [apply list_elem_of_In, Hpattern | exact Hm].
Qed.

(** X22. The output port [execute] opens is the last port of the machine
    that has the configured name, also when an earlier port has it; it is
    opened once, and no port is touched before it. *)
Theorem X22_output_opened_is_last_named (w : World) (inputData : InputData)
  (s : Vars) (j : nat) :
  EvOpenOutput j ∈ snd (execute w inputData s) →
  outputPorts w !! j = Some (virtualOutputName inputData) ∧
  (∀ k, (j < k)%nat → outputPorts w !! k ≠ Some (virtualOutputName inputData)) ∧
  openOutputFails w j = false ∧
  ∃ pre post,
    snd (execute w inputData s) = pre ++ EvOpenOutput j :: post ∧
    forallb isSilent pre = true ∧ ∀ k, EvOpenOutput k ∉ post.
Proof.
  destruct (execute w inputData s) as [[c s'] evs] eqn:Hrun. cbn [snd].
  intros Hj.
  destruct (execute_inv _ _ _ _ _ _ Hrun)
    as [(_ & _ & Hsil & _)|(table & log & _ & _ & _ &
                  [(_ & _ & Hsil & _)
                  |(idx & Hlast & [(_ & _ & Hsil & _)|(Hopen & _ & Hpost)])])];
    try discriminate (silent_no_port _ _ Hsil Hj).
  destruct Hpost as (pre & post & -> & Hpre & _ & Hnoout & _).
  assert (j = idx) as ->.
  { apply elem_of_app in Hj as [Hj|Hj].
    - discriminate (silent_no_port _ _ Hpre Hj).
    - apply elem_of_cons in Hj as [Hj|Hj]; [congruence|].
      destruct (Hnoout j Hj). }
  split; [|split; [|split]].
  - destruct (lastMatch_named _ _ _ _ _ Hlast) as [Hnone|[_ Hname]];
      [discriminate Hnone|].
    now rewrite Nat.sub_0_r in Hname.
  - intros k Hk. rewrite <- (Nat.sub_0_r k).
    eapply lastMatch_is_last; [exact Hlast | lia | exact Hk].
  - exact Hopen.
  - exists pre, post. repeat split; assumption.
Qed.

Lemma X22_output_opened_is_last_named_witness :
  outputPorts worldWithTwoOutputs !! 2%nat = Some (virtualOutputName exampleData) ∧
  (∀ k, (2 < k)%nat →
        outputPorts worldWithTwoOutputs !! k ≠ Some (virtualOutputName exampleData)) ∧
  openOutputFails worldWithTwoOutputs 2 = false ∧
  ∃ pre post,
    snd (execute worldWithTwoOutputs exampleData initialVars)
    = pre ++ EvOpenOutput 2 :: post ∧
    forallb isSilent pre = true ∧ ∀ k, EvOpenOutput k ∉ post.
Proof.
  apply (X22_output_opened_is_last_named worldWithTwoOutputs exampleData
           initialVars 2%nat).
  vm_compute.
  repeat first [apply list_elem_of_here | apply list_elem_of_further].
Defined.

(** X23. On a machine that has an output port of the configured name and
    where no port fails to open, a run whose split table compiles returns,
    and it has opened exactly the input ports whose name is matched by none
    of the patterns [execute] hands to [setupMidiInput], in enumeration
    order: these patterns are the name of the virtual output, read as a
    pattern like the others (its [?] and [*] are wildcards), followed by the
    exclusions of the configuration.  It returns 3 exactly when there is
    such a port. *)
Theorem X23_every_admitted_port_attached (w : World) (inputData : InputData)
  (s : Vars) (table : gmap Z Z) (log : list Diag) :
  buildSplitTable (splitDefinitionsOf inputData) = (Normal table, log) →
  virtualOutputName inputData ∈ outputPorts w →
  (∀ j, openOutputFails w j = false) →
  (∀ i, openInputFails w i = false) →
  ∃ code s' evs,
    execute w inputData s = (Normal code, s', evs) ∧
    openedInputs evs
    = admittedPorts w (virtualOutputName inputData :: exclusionsOf inputData) ∧
    (code = 3 ↔
     admittedPorts w (virtualOutputName inputData :: exclusionsOf inputData) ≠ []).
Proof.
  intros Hbuild Hname Hout Hin.
  destruct (execute w inputData s) as [[c s'] evs] eqn:Hrun.
  destruct (lastMatch_found _ 0%nat _ None Hname) as (found & Hfound).
  destruct (execute_inv _ _ _ _ _ _ Hrun)
    as [(_ & _ & _ & log' & Hthrow)|(table' & log' & _ & _ & _ &
                  [(Hlast & _)
                  |(idx & _ & [(Hopen & _)|(_ & _ & Hpost)])])].
  - rewrite Hbuild in Hthrow. discriminate Hthrow.
  - rewrite Hfound in Hlast. discriminate Hlast.
  - rewrite Hout in Hopen. discriminate Hopen.
  - destruct Hpost as (pre & post & -> & Hpre & _ & _ & _ & Hcases).
    destruct Hcases as [(-> & _ & Hop & Hadm)|[(-> & _ & Hop & Hadm)
                                             |(_ & _ & j & _ & _ & Hj)]].
    + exists 1, s', (pre ++ EvOpenOutput idx :: post).
      rewrite (openedInputs_after_output _ _ _ Hpre), Hadm, Hop.
      repeat split; [discriminate | congruence].
    + exists 3, s', (pre ++ EvOpenOutput idx :: post).
      rewrite (openedInputs_after_output _ _ _ Hpre), Hadm.
      repeat split. intros _. exact Hop.
    + rewrite Hin in Hj. discriminate Hj.
Qed.

Lemma X23_every_admitted_port_attached_witness :
  ∃ code s' evs,
    execute exampleWorld exampleData initialVars = (Normal code, s', evs) ∧
    openedInputs evs
    = admittedPorts exampleWorld
        (virtualOutputName exampleData :: exclusionsOf exampleData) ∧
    (code = 3 ↔
     admittedPorts exampleWorld
       (virtualOutputName exampleData :: exclusionsOf exampleData) ≠ []).
Proof.
  apply (X23_every_admitted_port_attached exampleWorld exampleData initialVars
           (rangeLoop 4 60 63 3 ∅) []).
  - reflexivity.
  - vm_compute. repeat first [apply list_elem_of_here | apply list_elem_of_further].
  - reflexivity.
  - reflexivity.
Defined.

(** X24. Once [execute] has returned, every message handed to
    [handleMessage] is sent to the output exactly once, as the array
    [transformMidiSrc] makes of it with the table compiled from the
    configuration, after the diagnostics of the transformation; the module
    variables are left as they are. *)
Theorem X24_messages_forwarded_transformed (w : World) (inputData : InputData)
  (s s' : Vars) (code : Z) (evs : list Event) :
  execute w inputData s = (Normal code, s', evs) →
  ∃ table log,
    buildSplitTable (splitDefinitionsOf inputData) = (Normal table, log) ∧
    ∀ (T : Type) (deltaTime : T) (message : list MidiValue),
      handleMessage deltaTime message s'
      = (Normal tt, s',
         (EvDiag <$> snd (transformMidiSrc table deltaTime message))
         ++ [EvSend (Some (fst (transformMidiSrc table deltaTime message)))]).
Proof.
  intros Hrun.
  destruct (execute_inv _ _ _ _ _ _ Hrun)
    as [(Hc & _)|(table & log & Hbuild & Htable & _)]; [discriminate Hc|].
  exists table, log. split; [exact Hbuild|].
  intros T deltaTime message. unfold handleMessage. run_engine.
  rewrite Htable.
  destruct (transformMidiSrc table deltaTime message) as [result diags].
  reflexivity.
Qed.

Lemma X24_messages_forwarded_transformed_witness :
  ∃ table log,
    buildSplitTable (splitDefinitionsOf exampleData) = (Normal table, log) ∧
    ∀ (T : Type) (deltaTime : T) (message : list MidiValue),
      handleMessage deltaTime message
        (snd (fst (execute exampleWorld exampleData initialVars)))
      = (Normal tt, snd (fst (execute exampleWorld exampleData initialVars)),
         (EvDiag <$> snd (transformMidiSrc table deltaTime message))
         ++ [EvSend (Some (fst (transformMidiSrc table deltaTime message)))]).
Proof.
  apply (X24_messages_forwarded_transformed exampleWorld exampleData initialVars
           _ 3 (snd (execute exampleWorld exampleData initialVars))).
  reflexivity.
Defined.

(** X25. A session closes what it opened: after a run of [execute] that
    keeps the process alive, a shutdown request closes each input port the
    run opened exactly once, in the order they were opened, then the output
    port the run opened, and ends the process; it opens nothing and sends
    nothing. *)
Theorem X25_session_closes_what_it_opened (w : World) (inputData : InputData)
  (s s' : Vars) (evs : list Event) :
  cleanupCalled s = false →
  execute w inputData s = (Normal 3, s', evs) →
  ∃ out s'',
    EvOpenOutput out ∈ evs ∧
    NoDup (openedInputs evs) ∧
    cleanup s'
    = (Exit None, s'',
       EvDiag (mkDiag info MsgExiting None)
         :: (EvCloseInput <$> openedInputs evs)
         ++ [EvCloseOutput out; EvDiag (mkDiag debug MsgClosedEverything None)]).
Proof.
  intros Hflag Hrun.
  destruct (execute_inv _ _ _ _ _ _ Hrun)
    as [(Hc & _)|(table & log & _ & _ & Hcl &
                  [(_ & Hc & _)|(idx & _ & [(_ & Hc & _)|(_ & Hout & Hpost)])])];
    try discriminate Hc.
  destruct Hpost as (pre & post & -> & Hpre & _ & _ & _ & Hcases).
  destruct Hcases as [(Hc & _)|[(_ & Hin & _ & Hadm)|(Hc & _)]];
    try discriminate Hc.
  rewrite (openedInputs_after_output _ _ _ Hpre).
  rewrite <- Hcl in Hflag.
  exists idx, (mkVars (transformMidi s') (inputInstances s') (output s') true).
  split; [|split].
  - apply elem_of_app. right. apply list_elem_of_here.
  - rewrite <- Hadm. apply admittedPorts_NoDup.
  - rewrite (cleanup_first s' idx Hflag Hout), Hin. reflexivity.
Qed.

Lemma X25_session_closes_what_it_opened_witness :
  ∃ out s'',
    EvOpenOutput out ∈ snd (execute exampleWorld exampleData initialVars) ∧
    NoDup (openedInputs (snd (execute exampleWorld exampleData initialVars))) ∧
    cleanup (snd (fst (execute exampleWorld exampleData initialVars)))
    = (Exit None, s'',
       EvDiag (mkDiag info MsgExiting None)
         :: (EvCloseInput
               <$> openedInputs (snd (execute exampleWorld exampleData initialVars)))
         ++ [EvCloseOutput out; EvDiag (mkDiag debug MsgClosedEverything None)]).
Proof.
  apply (X25_session_closes_what_it_opened exampleWorld exampleData initialVars);
    reflexivity.
Defined.

(** X26. The fixed split of the first revision is one configuration of the
    current code: with the table compiled from the four bands 60..127,
    48..59, 36..47 and 0..35 on the channels 1, 2, 3 and 4,
    [transformMidiSrc] returns for every message whose second element is a
    MIDI note what [transformMidi] of the first revision returns. *)
Theorem X26_first_revision_is_a_configuration {T : Type} (table : gmap Z Z)
  (log : list Diag) (deltaTime : T) (message : list MidiValue) (note : Z) :
  buildSplitTable (JArr (encode <$> fourBands)) = (Normal table, log) →
  nth 1 message MUndefined = MNum note → 0 <= note <= 127 →
  fst (transformMidiSrc table deltaTime message)
  = Legacy.transformMidi deltaTime message.
Proof.
  intros Hbuild Hnote Hrange.
  destruct (buildSplitTable_valid (encode <$> fourBands) fourBands)
    as (t & Ht & Hlook).
  { repeat (constructor; [repeat split; reflexivity|]). constructor. }
  { repeat (constructor; [cbn [valid]; lia|]). constructor. }
  { discriminate. }
  rewrite Ht in Hbuild. injection Hbuild as <- <-.
  unfold transformMidiSrc, Legacy.transformMidi. rewrite Hnote.
  cbn [ownChannel geNum]. rewrite Hlook.
  cbn [lastWriter fourBands coversb channelOf].
  match goal with
  | |- fst (match (if ?b then _ else _) with _ => _ end) = _ => destruct b
  end; [|reflexivity].
  repeat match goal with
         | |- context [?a <=? ?b] => destruct (Z.leb_spec a b)
         end; cbn [andb fst]; try (exfalso; lia); reflexivity.
Qed.

Lemma X26_first_revision_is_a_configuration_witness :
  fst (transformMidiSrc
         (rangeLoop 36 0 35 4
            (rangeLoop 12 36 47 3 (rangeLoop 12 48 59 2 (rangeLoop 68 60 127 1 ∅))))
         tt [MNum 144; MNum 50; MNum 90])
  = Legacy.transformMidi tt [MNum 144; MNum 50; MNum 90].
Proof.
  apply (X26_first_revision_is_a_configuration _ [] tt _ 50);
    [reflexivity | reflexivity | lia].
Defined.

(** X27. From the configuration to the wire.  When the configured split
    table is a list of valid definitions, [ds] in order, possibly mixed
    with entries the callback discards, then once [execute] has returned a
    note-on or note-off message is sent on the channel of the last
    definition of [ds] that covers its note, with note and velocity as
    received, and as received when no definition covers the note. *)
Theorem X27_configuration_to_wire {T : Type} (w : World)
  (inputData : InputData) (s s' : Vars) (code : Z) (evs : list Event)
  (vs : list JsValue) (ds : list SplitDefinition)
  (deltaTime : T) (status note : Z) (velocity : MidiValue) :
  splitTable inputData = JArr vs → Reads vs ds →
  execute w inputData s = (Normal code, s', evs) →
  splittable status →
  ∃ diags,
    handleMessage deltaTime [MNum status; MNum note; velocity] s'
    = (Normal tt, s',
       (EvDiag <$> diags)
       ++ [EvSend
             (Some
                match lastWriter ds note None with
                | Some channel =>
                    [MNum (Z.lor (Z.land status 240) (channel - 1)); MNum note;
                     velocity]
                | None => [MNum status; MNum note; velocity]
                end)]).
Proof.
  intros Hsplit Hreads Hrun Hstatus. unfold splittable in Hstatus.
  destruct (execute_inv _ _ _ _ _ _ Hrun)
    as [(Hc & _)|(table & log & Hbuild & Htable & _)]; [discriminate Hc|].
  unfold splitDefinitionsOf in Hbuild. rewrite Hsplit in Hbuild.
  cbn [truthy] in Hbuild.
  assert (Hlook : ∀ n, table !! n = lastWriter ds n None).
  { destruct vs as [|v vs].
    - inversion Hreads; subst. injection Hbuild as <- _.
      intros n. apply lookup_empty.
    - destruct (forEachDefinition_reads _ _ Hreads 0%nat ∅ [])
        as (t & log' & Hrun' & Hlast & _).
      cbn [buildSplitTable] in Hbuild. rewrite Hrun' in Hbuild.
      injection Hbuild as <- _. intros n. rewrite Hlast, lookup_empty.
      reflexivity. }
  pose proof (buildSplitTable_channels _ _ _ Hbuild) as Hchannels.
  unfold handleMessage. run_engine. rewrite Htable.
  destruct (transformMidiSrc table deltaTime [MNum status; MNum note; velocity])
    as [result diags] eqn:Htransform.
  exists diags.
  change result with (fst (result, diags)). rewrite <- Htransform.
  destruct (lastWriter ds note None) as [channel|] eqn:Hlast.
  - rewrite <- Hlook in Hlast.
    rewrite (transformMidiSrc_reroute _ _ _ _ _ channel Hstatus Hlast).
    rewrite newStatus_plain; [reflexivity | lia | exact (Hchannels _ _ Hlast)].
  - rewrite transformMidiSrc_unmapped; [reflexivity|].
    cbn [nth ownChannel]. rewrite Hlook. exact Hlast.
Qed.

Lemma X27_configuration_to_wire_witness :
  ∃ diags,
    handleMessage tt [MNum 144; MNum 61; MNum 90]
      (snd (fst (execute exampleWorld exampleData initialVars)))
    = (Normal tt, snd (fst (execute exampleWorld exampleData initialVars)),
       (EvDiag <$> diags)
       ++ [EvSend
             (Some
                match lastWriter [Range 60 63 3] 61 None with
                | Some channel =>
                    [MNum (Z.lor (Z.land 144 240) (channel - 1)); MNum 61;
                     MNum 90]
                | None => [MNum 144; MNum 61; MNum 90]
                end)]).
Proof.
  apply (X27_configuration_to_wire exampleWorld exampleData initialVars _ 3
           (snd (execute exampleWorld exampleData initialVars))
           [encode (Range 60 63 3)] [Range 60 63 3]).
  - reflexivity.
  - apply Reads_keep; [repeat split; reflexivity | cbn [valid]; lia | constructor].
  - reflexivity.
  - unfold splittable. lia.
Defined.

(** * The fatal path and the shutdown, against the whole engine *)



(** C9. A shutdown request closes the input ports recorded in
    [inputInstances], in order, then the output port, and ends the process;
    asked again it does nothing, whatever the first request did.  After a
    set-up that returned, the ports recorded are the ports the set-up
    attached.  After a set-up interrupted by an input port that failed to
    open they are not: the ports attached before the failure were never
    recorded, and the shutdown leaves them open.  On a machine whose second
    input port cannot be opened, [execute] opens and subscribes to the first
    port, and the shutdown that follows closes the output alone. *)
Theorem C9_shutdown_misses_inputs_of_interrupted_set_up :
  (∃ s' evs s'',
     execute worldWithFailingInput exampleData initialVars
     = (Throw NativeError, s', evs) ∧
     openedInputs evs = [0%nat] ∧ subscribedInputs evs = [0%nat] ∧
     cleanupCalled s' = false ∧
     cleanup s'
     = (Exit None, s'',
        [EvDiag (mkDiag info MsgExiting None); EvCloseOutput 0;
         EvDiag (mkDiag debug MsgClosedEverything None)])) ∧
  (∀ (w : World) (inputData : InputData) (s s' : Vars) (code : Z)
     (evs : list Event),
     cleanupCalled s = false → inputInstances s = [] →
     execute w inputData s = (Normal code, s', evs) →
     ∃ out s'',
       EvOpenOutput out ∈ evs ∧
       cleanup s'
       = (Exit None, s'',
          EvDiag (mkDiag info MsgExiting None)
            :: (EvCloseInput <$> openedInputs evs)
            ++ [EvCloseOutput out;
                EvDiag (mkDiag debug MsgClosedEverything None)]) ∧
       cleanup s'' = (Normal tt, s'', [])) ∧
  (∀ s : Vars,
     cleanup (snd (fst (cleanup s))) = (Normal tt, snd (fst (cleanup s)), [])).
Proof.
  split; [|split].
  - do 3 eexists. repeat split; vm_compute; reflexivity.
  - intros w inputData s s' code evs Hflag Hfresh Hrun.
    destruct (execute_running _ _ _ _ _ _ Hrun)
      as (table & log & out & _ & _ & _ & Hout & Hc & Hopen & Hcode).
    rewrite <- Hc in Hflag.
    assert (Hin : inputInstances s' = openedInputs evs).
    { destruct Hcode as [(_ & -> & ->)|(_ & _ & Hin)]; [exact Hfresh | exact Hin]. }
    eexists out, _. split; [exact Hopen|]. split.
    + rewrite (cleanup_first s' out Hflag Hout), Hin. reflexivity.
    + apply cleanup_again. reflexivity.
  - apply cleanup_idempotent.
Qed.

Lemma C9_shutdown_misses_inputs_of_interrupted_set_up_witness :
  ∃ out s'',
    EvOpenOutput out ∈ snd (execute exampleWorld exampleData initialVars) ∧
    cleanup (snd (fst (execute exampleWorld exampleData initialVars)))
    = (Exit None, s'',
       EvDiag (mkDiag info MsgExiting None)
         :: (EvCloseInput
               <$> openedInputs (snd (execute exampleWorld exampleData initialVars)))
         ++ [EvCloseOutput out;
             EvDiag (mkDiag debug MsgClosedEverything None)]) ∧
    cleanup s'' = (Normal tt, s'', []).
Proof.
  apply (proj1 (proj2 C9_shutdown_misses_inputs_of_interrupted_set_up)
           exampleWorld exampleData initialVars _ 3);
    reflexivity.
Defined.
